(** * Authentication core of the API: credentials, tokens, lazy identity, permissions

    A shallow embedding of [api/models.py], [api/exeptions.py],
    [api/auth/auth_engines/{abstract,email}.py], [api/middleware.py] and
    the views of [api/views.py] that log in, read a user and store exchange
    rates, with [get_user_by_identifier] of [api/utils.py].

    Python objects live in a store and are named by references, exceptions
    are values of type [exn], and every function that touches the database
    session, the logger, the wall clock or a request object is a function
    from a state to an outcome and a new state.  The libraries the code
    calls (the password hasher and validator, the token codec, the UUID
    parser) are the fields of a record [Env]: the development is
    parametric in them. *)

From Stdlib Require Import ZArith List Bool Lia.
From stdpp Require Import base option list strings pretty gmap.

Local Open Scope string_scope.
Local Open Scope list_scope.
Local Open Scope Z_scope.

(** ** Exceptions *)

(** The exception classes exported by the token library. *)
Inductive PyJWTError :=
| ExpiredSignatureError
| DecodeError
| InvalidSignatureError
| InvalidAlgorithmError
| ImmatureSignatureError
| InvalidIssuedAtError
| InvalidAudienceError
| InvalidIssuerError
| MissingRequiredClaimError
| InvalidKeyError.

(** [issubclass e c] for the library's classes: [InvalidSignatureError]
    derives from [DecodeError], every other class only from the common
    base. *)
Definition jwt_subclass (e c : PyJWTError) : bool :=
  match e, c with
  | ExpiredSignatureError, ExpiredSignatureError
  | DecodeError, DecodeError
  | InvalidSignatureError, InvalidSignatureError
  | InvalidSignatureError, DecodeError
  | InvalidAlgorithmError, InvalidAlgorithmError
  | ImmatureSignatureError, ImmatureSignatureError
  | InvalidIssuedAtError, InvalidIssuedAtError
  | InvalidAudienceError, InvalidAudienceError
  | InvalidIssuerError, InvalidIssuerError
  | MissingRequiredClaimError, MissingRequiredClaimError
  | InvalidKeyError, InvalidKeyError => true
  | _, _ => false
  end.

(** Exceptions of the framework ([lamb.exc]), of [api/exeptions.py], of the
    interpreter and of the libraries, as far as this code meets them.  An
    optional message is [None] where the code raises the class without
    arguments. *)
Inductive exn :=
| ServerError (msg : string)
| NotRealizedMethodError (msg : string)
| NotAllowedMethodError (msg : string)
| AuthCredentialsInvalid (msg : option string)
| AuthCredentialsExpired
| InvalidParamValueError (msg : string) (error_details : list string)
| InvalidParamTypeError (msg : string)
| InvalidBodyStructureError (msg : string)
| UserIsNotConfirmedError
| UserIsBlockedError
| AttributeError (msg : string)
| KeyError (key : string)
| ObjectDeletedError
| DatabaseError
| JwtError (e : PyJWTError).

(** [api/exeptions.py]: the application's error codes and the class
    attributes of its two exceptions. *)
Inductive AppExceptionCodes := UserIsNotConfirmed | UserIsBlocked.

Definition code_value (c : AppExceptionCodes) : Z :=
  match c with
  | UserIsNotConfirmed => 1001
  | UserIsBlocked => 1002
  end.

Definition _app_error_code (e : exn) : option AppExceptionCodes :=
  match e with
  | UserIsNotConfirmedError => Some UserIsNotConfirmed
  | UserIsBlockedError => Some UserIsBlocked
  | _ => None
  end.

Definition _status_code (e : exn) : option Z :=
  match e with
  | UserIsNotConfirmedError => Some 403
  | UserIsBlockedError => Some 403
  | _ => None
  end.

Definition _message (e : exn) : option string :=
  match e with
  | UserIsNotConfirmedError => Some "Can not do anything until the user is confirmed"
  | UserIsBlockedError => Some "Can not do anything until the user is blocked"
  | _ => None
  end.

(** ** Outcomes and the state-and-exception monad *)

Inductive Result (A : Type) :=
| Ok (a : A)
| Raise (e : exn).
Arguments Ok {A} a.
Arguments Raise {A} e.

(** A computation over a state [S]: a mutation made before an exception is
    raised stays made. *)
Definition M (S A : Type) : Type := S -> Result A * S.

Definition ret {S A} (a : A) : M S A := fun s => (Ok a, s).
Definition raise {S A} (e : exn) : M S A := fun s => (Raise e, s).
Definition bind {S A B} (m : M S A) (k : A -> M S B) : M S B :=
  fun s =>
    match m s with
    | (Ok a, s') => k a s'
    | (Raise e, s') => (Raise e, s')
    end.
Definition gets {S A} (f : S -> A) : M S A := fun s => (Ok (f s), s).
Definition modify {S} (f : S -> S) : M S unit := fun s => (Ok tt, f s).

(** [try: m  except Exception: pass] *)
Definition try_pass {S} (m : M S unit) : M S unit :=
  fun s =>
    match m s with
    | (Ok _, s') => (Ok tt, s')
    | (Raise _, s') => (Ok tt, s')
    end.

(** [for x in xs: f(x)] *)
Fixpoint for_each {S A} (xs : list A) (f : A -> M S unit) : M S unit :=
  match xs with
  | [] => ret tt
  | x :: rest => bind (f x) (fun _ => for_each rest f)
  end.

Declare Scope py_scope.
Delimit Scope py_scope with py.
Notation "x <- m ;; k" := (bind m (fun x => k))
  (at level 100, m at next level, right associativity) : py_scope.
Notation "m ;;; k" := (bind m (fun _ => k))
  (at level 100, right associativity) : py_scope.
Local Open Scope py_scope.

(** ** Data model ([api/models.py]) *)

Definition UUID := N.

(** Values that travel in dictionaries: credentials and token claims. *)
Inductive pyval :=
| VNone
| VStr (s : string)
| VInt (z : Z)
| VDatetime (micros : Z)
| VUuid (u : UUID).

Inductive UserType := SUPER_ADMIN | OPERATOR | USER.

Definition UserType_eqb (a b : UserType) : bool :=
  match a, b with
  | SUPER_ADMIN, SUPER_ADMIN | OPERATOR, OPERATOR | USER, USER => true
  | _, _ => false
  end.

(** The columns of [app_role_abstract_user].  The tables of [SuperAdmin]
    and [Operator] add no column; the class of an object is its
    [user_type]. *)
Record AbstractUser := {
  user_id : UUID;
  user_type : UserType;
  password_hash : option string;
  email : option string;
  is_email_confirmed : bool;
  last_name : option string;
  first_name : option string;
  is_confirmed : bool;
  is_blocked : bool;
}.

(** The columns of [app_refresh_token]; [value] is the primary key. *)
Record RefreshToken := {
  value : string;
  token_user_id : UUID;
}.

(** A reference to a mapped object: two references are the same object
    exactly when they are equal, which is what [==] tests on a class
    without [__eq__]. *)
Definition ref := nat.

Inductive Level := DEBUG | INFO | WARNING | ERROR.

(** What the collaborators were asked, most recent first. *)
Inductive event :=
| EvDecode (ok : bool)
| EvQuery (found : bool).

(** The session with its database, the logger, the settings table and the
    wall clock.

    - [objects]: the mapped users of the session, a reference being an
      index;
    - [refresh_tokens]: the committed rows; [pending]: objects added and
      not yet flushed;
    - [stored_hashes]: the password hash of each user as the database has
      it, which is what an object shows again once a rollback has expired
      it ([password_hash] is the one column this code assigns);
    - [writable]: whether the database takes a commit;
    - [settings]: [app_utils_settings], name to stored value;
    - [wall n]: what the clock shows at its [n]-th reading, in microseconds;
      [reads]: the readings taken so far. *)
Record World := {
  objects : list AbstractUser;
  refresh_tokens : list RefreshToken;
  pending : list RefreshToken;
  writable : bool;
  settings : gmap string Z;
  log : list (Level * string);
  wall : nat -> Z;
  reads : nat;
  calls : list event;
  stored_hashes : list (option string);
}.

Definition set_objects (f : list AbstractUser -> list AbstractUser) (w : World) : World :=
  {| objects := f (objects w); refresh_tokens := refresh_tokens w; pending := pending w;
     writable := writable w; settings := settings w; log := log w; wall := wall w;
     reads := reads w; calls := calls w; stored_hashes := stored_hashes w |}.

Definition set_pending (f : list RefreshToken -> list RefreshToken) (w : World) : World :=
  {| objects := objects w; refresh_tokens := refresh_tokens w; pending := f (pending w);
     writable := writable w; settings := settings w; log := log w; wall := wall w;
     reads := reads w; calls := calls w; stored_hashes := stored_hashes w |}.

(** A flush that goes through: the pending rows reach the table and the
    hashes of the objects the database. *)
Definition flush (w : World) : World :=
  {| objects := objects w; refresh_tokens := refresh_tokens w ++ pending w; pending := [];
     writable := writable w; settings := settings w; log := log w; wall := wall w;
     reads := reads w; calls := calls w; stored_hashes := password_hash <$> objects w |}.

(** An object that shows the hash [h]. *)
Definition with_hash (h : option string) (u : AbstractUser) : AbstractUser :=
  {| user_id := user_id u; user_type := user_type u; password_hash := h;
     email := email u; is_email_confirmed := is_email_confirmed u;
     last_name := last_name u; first_name := first_name u;
     is_confirmed := is_confirmed u; is_blocked := is_blocked u |}.

(** The objects once they were expired: each shows the stored hash
    again. *)
Fixpoint reloaded (hashes : list (option string)) (os : list AbstractUser)
  : list AbstractUser :=
  match os, hashes with
  | u :: os', h :: hashes' => with_hash h u :: reloaded hashes' os'
  | _, _ => os
  end.

(** A flush that fails: the transaction is rolled back, which expires the
    objects and expunges the pending ones. *)
Definition rollback (w : World) : World :=
  {| objects := reloaded (stored_hashes w) (objects w);
     refresh_tokens := refresh_tokens w; pending := [];
     writable := writable w; settings := settings w; log := log w; wall := wall w;
     reads := reads w; calls := calls w; stored_hashes := stored_hashes w |}.

Definition add_log (r : Level * string) (w : World) : World :=
  {| objects := objects w; refresh_tokens := refresh_tokens w; pending := pending w;
     writable := writable w; settings := settings w; log := r :: log w; wall := wall w;
     reads := reads w; calls := calls w; stored_hashes := stored_hashes w |}.

Definition tick (w : World) : World :=
  {| objects := objects w; refresh_tokens := refresh_tokens w; pending := pending w;
     writable := writable w; settings := settings w; log := log w; wall := wall w;
     reads := S (reads w); calls := calls w; stored_hashes := stored_hashes w |}.

Definition add_call (e : event) (w : World) : World :=
  {| objects := objects w; refresh_tokens := refresh_tokens w; pending := pending w;
     writable := writable w; settings := settings w; log := log w; wall := wall w;
     reads := reads w; calls := e :: calls w; stored_hashes := stored_hashes w |}.

(** *** The storage session *)

(** Reading an attribute of a mapped object; the object of a row that is
    gone cannot be read. *)
Definition deref (r : ref) : M World AbstractUser :=
  fun w =>
    match objects w !! r with
    | Some u => (Ok u, w)
    | None => (Raise ObjectDeletedError, w)
    end.

(** Assigning to attributes of a mapped object. *)
Definition update (r : ref) (f : AbstractUser -> AbstractUser) : M World unit :=
  modify (set_objects (fun os => match os !! r with
                                 | Some u => <[r := f u]> os
                                 | None => os
                                 end)).

Fixpoint find_index {A} (p : A -> bool) (l : list A) : option nat :=
  match l with
  | [] => None
  | x :: rest => if p x then Some O else S <$> find_index p rest
  end.

(** [session.query(AbstractUser).filter(p).first()] *)
Definition query_first (p : AbstractUser -> bool) : M World (option ref) :=
  fun w =>
    let r := find_index p (objects w) in
    (Ok r, add_call (EvQuery (bool_decide (is_Some r))) w).

(** [session.add(token)] *)
Definition session_add (t : RefreshToken) : M World unit :=
  modify (set_pending (fun p => p ++ [t])).

Fixpoint distinct (l : list string) : bool :=
  match l with
  | [] => true
  | x :: rest => negb (existsb (String.eqb x) rest) && distinct rest
  end.

(** The primary key of [app_refresh_token]: no two rows with one [value]. *)
Definition primary_key_free (w : World) : bool :=
  distinct (map value (refresh_tokens w ++ pending w)).

(** [session.commit()]: the pending rows and the changed hashes reach the
    database, unless the database refuses the commit or a row repeats a
    primary key; then the session rolls back, the commit raises and
    nothing is stored. *)
Definition commit : M World unit :=
  fun w =>
    if writable w && primary_key_free w then (Ok tt, flush w)
    else (Raise DatabaseError, rollback w).

(** [logger.info(msg)]: the record that the code emits.  What the
    handlers of the logging configuration do with a record, the filter
    [AppContextFilter] with its read of [request.app_user_id] included,
    happens outside the session and is not part of it. *)
Definition logger_info (msg : string) : M World unit :=
  modify (add_log (INFO, msg)).

(** [datetime.utcnow()] *)
Definition utcnow : M World Z :=
  fun w => (Ok (wall w (reads w)), tick w).

(** [timedelta(minutes=m)] in microseconds. *)
Definition timedelta_minutes (m : Z) : Z := m * 60 * 1000000.

(** *** Permission predicates *)

(** [user_check(checkers, params_checkers)]: the decorator runs every
    checker on the bound object [args[0]], then every parameter checker on
    all the arguments, then the decorated function. *)
Definition user_check {A : Type}
    (checkers : list (ref -> M World unit))
    (params_checkers : option (list (ref -> A -> M World unit)))
    (func : ref -> A -> M World bool) : ref -> A -> M World bool :=
  fun self arg =>
    (for_each checkers (fun checker => checker self) ;;;
     match params_checkers with
     | Some pcs => for_each pcs (fun params_checker => params_checker self arg)
     | None => ret tt
     end ;;;
     func self arg).

Definition check_account_confirmed (user : ref) : M World unit :=
  (u <- deref user ;;
   if negb (is_confirmed u) then raise UserIsNotConfirmedError else ret tt).

Module SuperAdmin.

Definition can_create_user : ref -> UserType -> M World bool :=
  user_check [check_account_confirmed] None
    (fun self user_type => ret (negb (UserType_eqb user_type SUPER_ADMIN))).

Definition can_read_user : ref -> ref -> M World bool :=
  user_check [check_account_confirmed] None (fun self user => ret true).

Definition can_edit_user : ref -> ref -> M World bool :=
  user_check [check_account_confirmed] None (fun self user => ret true).

End SuperAdmin.

Module Operator.

Definition can_create_user : ref -> UserType -> M World bool :=
  user_check [check_account_confirmed] None (fun self user_type => ret false).

Definition can_read_user : ref -> ref -> M World bool :=
  user_check [check_account_confirmed] None
    (fun self user => ret (bool_decide (user = self))).

Definition can_edit_user : ref -> ref -> M World bool :=
  user_check [check_account_confirmed] None
    (fun self user => ret (bool_decide (user = self))).

End Operator.

(** The six decorated methods, to quantify over them. *)
Inductive role := RSuperAdmin | ROperator.

Inductive question :=
| CanCreateUser (t : UserType)
| CanReadUser (target : ref)
| CanEditUser (target : ref).

Definition ask (cls : role) (q : question) (self : ref) : M World bool :=
  match cls, q with
  | RSuperAdmin, CanCreateUser t => SuperAdmin.can_create_user self t
  | RSuperAdmin, CanReadUser target => SuperAdmin.can_read_user self target
  | RSuperAdmin, CanEditUser target => SuperAdmin.can_edit_user self target
  | ROperator, CanCreateUser t => Operator.can_create_user self t
  | ROperator, CanReadUser target => Operator.can_read_user self target
  | ROperator, CanEditUser target => Operator.can_edit_user self target
  end.

(** ** The libraries the code calls *)

(** What [jwt.decode] answers: the claims, or one of its exceptions. *)
Inductive verdict :=
| Claims (payload : gmap string pyval)
| Refused (e : PyJWTError).

(** - [validate_password raw user]: the messages of the configured password
      validators, none when the password is accepted;
    - [make_password raw]: the hash in the preferred format;
    - [hasher_verify raw encoded]: whether [encoded] is a usable hash of a
      known format that [raw] verifies against;
    - [hasher_must_update encoded]: whether the format of [encoded] is not
      the preferred one;
    - [jwt_encode payload key algorithm] and
      [jwt_decode token key algorithms now];
    - [uuid_str] is [str] on a UUID, [uuid_parse] the constructor from text;
    - [APP_JWT_SECRET_KEY]: read from the process environment. *)
Record Env := {
  validate_password : string -> AbstractUser -> list string;
  make_password : string -> string;
  hasher_verify : string -> string -> bool;
  hasher_must_update : string -> bool;
  jwt_encode : gmap string pyval -> string -> string -> string;
  jwt_decode : string -> string -> list string -> Z -> verdict;
  uuid_str : UUID -> string;
  uuid_parse : string -> option UUID;
  APP_JWT_SECRET_KEY : string;
}.

Definition APP_JWT_ALGORITHM : string := "HS256".

(** [str.lower] on the ASCII letters. *)
Definition lower_ascii (c : Ascii.ascii) : Ascii.ascii :=
  let n := Ascii.N_of_ascii c in
  if ((65 <=? n) && (n <=? 90))%N then Ascii.ascii_of_N (n + 32) else c.

Fixpoint lower (s : string) : string :=
  match s with
  | EmptyString => EmptyString
  | String c rest => String (lower_ascii c) (lower rest)
  end.

(** [repr] of a list of strings, as an f-string prints it. *)
Fixpoint repr_items (l : list string) : string :=
  match l with
  | [] => ""
  | [x] => "'" +:+ x +:+ "'"
  | x :: rest => "'" +:+ x +:+ "', " +:+ repr_items rest
  end.

Definition repr_list (l : list string) : string := "[" +:+ repr_items l +:+ "]".

(** [lamb.utils.dpath_value(d, key, str)]: the value under [key], which has
    to be there and to be a string (the wording of the two errors is the
    framework's and is not relied on). *)
Definition dpath_value_str {S} (d : gmap string pyval) (key : string) : M S string :=
  match d !! key with
  | None =>
      raise (InvalidBodyStructureError
               ("Could not locate field for key_path " +:+ key +:+ " from provided dict data"))
  | Some (VStr s) => ret s
  | Some _ => raise (InvalidParamTypeError ("Invalid data type for param " +:+ key))
  end.

(** [dpath_value(d, key, str, default=None)] *)
Definition dpath_value_str_default {S} (d : gmap string pyval) (key : string)
  : M S (option string) :=
  match d !! key with
  | None => ret None
  | Some (VStr s) => ret (Some s)
  | Some _ => raise (InvalidParamTypeError ("Invalid data type for param " +:+ key))
  end.

(** *** Settings ([SettingsValue]) *)

Inductive SettingsValue := access_token_timeout | refresh_token_timeout.

Definition sv_name (v : SettingsValue) : string :=
  match v with
  | access_token_timeout => "access_token_timeout"
  | refresh_token_timeout => "refresh_token_timeout"
  end.

Definition sv_default (v : SettingsValue) : Z :=
  match v with
  | access_token_timeout => 60 * 24 * 3
  | refresh_token_timeout => 60 * 24 * 30
  end.

(** Modelled from the spec: the [val] property of the framework's
    [AbstractSettingsValue], which is not in the repository.  A timeout is
    a configuration value with a default: the value stored under the
    setting's name, the default of the declaration when none is stored. *)
Definition val (v : SettingsValue) : M World Z :=
  gets (fun w => default (sv_default v) (settings w !! sv_name v)).

(** ** Objects on a request ([api/middleware.py]) *)

(** What a lazy attribute of a request can hold. *)
Inductive obj :=
| OVal (v : pyval)
| ODict (d : gmap string pyval)
| OUser (r : ref).

(** A request: its headers, its instance dictionary, and the session
    ([lamb_db_session]) with the rest of the world behind it. *)
Record Request := {
  META : gmap string string;
  __dict__ : gmap string obj;
  lamb_db_session : World;
}.

Definition set_dict (f : gmap string obj -> gmap string obj) (r : Request) : Request :=
  {| META := META r; __dict__ := f (__dict__ r); lamb_db_session := lamb_db_session r |}.

(** Running a computation of the session on a request. *)
Definition on_session {A} (m : M World A) : M Request A :=
  fun r =>
    match m (lamb_db_session r) with
    | (x, w') => (x, {| META := META r; __dict__ := __dict__ r; lamb_db_session := w' |})
    end.

(** [_LazyHttpRequestDescriptor]: the factory, and the private name that
    [__set_name__] derives from the attribute's name.  Every [Request] is an
    [HttpRequest], so the [ServerError] branch of [__get__] is not
    reached. *)
Record _LazyHttpRequestDescriptor := {
  __factory__ : M Request obj;
  _private_name : string;
}.

Definition __set_name__ (factory : M Request obj) (name : string) : _LazyHttpRequestDescriptor :=
  {| __factory__ := factory; _private_name := "_" +:+ name |}.

(** [instance.__dict__[key]] *)
Definition getitem (key : string) : M Request obj :=
  fun r =>
    match __dict__ r !! key with
    | Some v => (Ok v, r)
    | None => (Raise (KeyError key), r)
    end.

Definition __get__ (self : _LazyHttpRequestDescriptor) : M Request obj :=
  fun instance =>
    (if bool_decide (is_Some (__dict__ instance !! _private_name self))
     then getitem (_private_name self)
     else (v <- __factory__ self ;;
           modify (set_dict (<[_private_name self := v]>)) ;;;
           getitem (_private_name self))) instance.

Definition __set__ (self : _LazyHttpRequestDescriptor) (v : obj) : M Request unit :=
  modify (set_dict (<[_private_name self := v]>)).

(** ** The program, over its libraries *)

Section Program.

Context (env : Env).

(** *** Passwords ([AbstractUser]) *)

Definition set_password (self : ref) (raw_password : string) : M World unit :=
  (u <- deref self ;;
   match validate_password env raw_password u with
   | [] => update self (fun u =>
             {| user_id := user_id u; user_type := user_type u;
                password_hash := Some (make_password env raw_password);
                email := email u; is_email_confirmed := is_email_confirmed u;
                last_name := last_name u; first_name := first_name u;
                is_confirmed := is_confirmed u; is_blocked := is_blocked u |})
   | messages =>
       logger_info ("User password is invalid. Details: " +:+ repr_list messages) ;;;
       raise (InvalidParamValueError "Invalid password value" messages)
   end).

(** The hasher library's [check_password(password, encoded, setter)]: false
    without a password or a usable hash; otherwise the verification, after
    which [setter] is called with the password when it verified and the
    format of the hash is not the preferred one. *)
Definition hashers_check_password (password : option string) (encoded : option string)
    (setter : string -> M World unit) : M World bool :=
  match password, encoded with
  | Some password, Some encoded =>
      let must_update := hasher_must_update env encoded in
      let is_correct := hasher_verify env password encoded in
      if is_correct && must_update
      then (setter password ;;; ret is_correct)
      else ret is_correct
  | _, _ => ret false
  end.

(** The session of a mapped object is the session of the world. *)
Definition object_session_commit (self : ref) : M World unit := commit.

Definition check_password (self : ref) (raw_password : option string) : M World bool :=
  let setter (_raw_password : string) : M World unit :=
    (set_password self _raw_password ;;;
     try_pass (object_session_commit self)) in
  (u <- deref self ;;
   hashers_check_password raw_password (password_hash u) setter).

Definition change_password (self : ref) (password_old : option string) (password_new : string)
  : M World unit :=
  (u <- deref self ;;
   match password_hash u with
   | Some _ =>
       ok <- check_password self password_old ;;
       if negb ok then raise (AuthCredentialsInvalid (Some "Invalid old password value"))
       else set_password self password_new
   | None => set_password self password_new
   end).

(** *** Token issuance ([AbstractAuthEngine]) *)

Definition token_payload (user_id_str : string) (exp : Z) : gmap string pyval :=
  <["user_id" := VStr user_id_str]> (<["exp" := VDatetime exp]> ∅).

Definition _create_token_pair (user_id : UUID) : M World (string * string) :=
  let user_id_str := uuid_str env user_id in
  (now <- utcnow ;;
   timeout <- val access_token_timeout ;;
   let access_token :=
     jwt_encode env (token_payload user_id_str (now + timedelta_minutes timeout))
       (APP_JWT_SECRET_KEY env) APP_JWT_ALGORITHM in
   now <- utcnow ;;
   timeout <- val refresh_token_timeout ;;
   let refresh_token :=
     jwt_encode env (token_payload user_id_str (now + timedelta_minutes timeout))
       (APP_JWT_SECRET_KEY env) APP_JWT_ALGORITHM in
   ret (access_token, refresh_token)).

(** *** The email engine ([EmailAuthEngine]) *)

Definition email_is (e : string) (u : AbstractUser) : bool :=
  match email u with
  | Some x => String.eqb x e
  | None => false
  end.

Definition _get_info (credentials : gmap string pyval) (requires_password : bool)
  : M World (string * option string * option ref) :=
  (email <- dpath_value_str credentials "email" ;;
   let email := lower email in
   password <- (if requires_password
                then (p <- dpath_value_str credentials "password" ;; ret (Some p))
                else dpath_value_str_default credentials "password") ;;
   user <- query_first (email_is email) ;;
   ret (email, password, user)).

Definition authenticate (credentials : gmap string pyval) : M World (string * string * ref) :=
  (info <- _get_info credentials true ;;
   let '(email, password, user) := info in
   match user with
   | None => raise (AuthCredentialsInvalid (Some "User password or email is not valid"))
   | Some user =>
       ok <- check_password user password ;;
       if negb ok
       then raise (AuthCredentialsInvalid (Some "User password or email is not valid"))
       else
         u <- deref user ;;
         let user_id := user_id u in
         pair <- _create_token_pair user_id ;;
         let '(access_token, refresh_token) := pair in
         session_add {| value := refresh_token; token_user_id := user_id |} ;;;
         commit ;;;
         ret (access_token, refresh_token, user)
   end).

Definition bounded (user : ref) : M World bool :=
  (u <- deref user ;; ret (bool_decide (is_Some (email u)))).

(** *** The four lazy attributes of a request *)

(** [lamb.utils.transformers.transform_uuid]: a UUID as it is, a string
    parsed, and [InvalidParamValueError] for what is neither or does not
    parse. *)
Definition transform_uuid {S} (v : obj) : M S UUID :=
  match v with
  | OVal (VUuid u) => ret u
  | OVal (VStr s) =>
      match uuid_parse env s with
      | Some u => ret u
      | None => raise (InvalidParamValueError "Invalid value for uuid field" [])
      end
  | _ => raise (InvalidParamValueError "Invalid value for uuid field" [])
  end.

Definition _get_user_token_from_headers : M Request obj :=
  fun request =>
    match META request !! "HTTP_X_LAMB_AUTH_TOKEN" with
    | Some token => (Ok (OVal (VStr token)), request)
    | None => (Ok (OVal VNone), request)
    end.

Definition app_user_token_descr : _LazyHttpRequestDescriptor :=
  __set_name__ _get_user_token_from_headers "app_user_token".

(** [jwt.decode(token, key, algorithms=[...])]: the library reads the clock
    itself, and refuses what is not a string as a [DecodeError]. *)
Definition decode (token : obj) : M World verdict :=
  fun w =>
    let v := match token with
             | OVal (VStr s) =>
                 jwt_decode env s (APP_JWT_SECRET_KEY env) [APP_JWT_ALGORITHM] (wall w (reads w))
             | _ => Refused DecodeError
             end in
    (Ok v, add_call (EvDecode (match v with Claims _ => true | Refused _ => false end)) (tick w)).

(** [except] clauses are tried in order, each against the class of the
    exception and its bases. *)
Definition catches (classes : list PyJWTError) (e : PyJWTError) : bool :=
  existsb (jwt_subclass e) classes.

Definition _get_user_token_payload : M Request obj :=
  (token <- __get__ app_user_token_descr ;;
   v <- on_session (decode token) ;;
   match v with
   | Claims payload => ret (ODict payload)
   | Refused e =>
       if catches [ExpiredSignatureError] e then raise AuthCredentialsExpired
       else if catches [DecodeError; InvalidSignatureError; InvalidAlgorithmError] e
            then raise (AuthCredentialsInvalid None)
            else raise (JwtError e)
   end).

Definition app_user_token_payload_descr : _LazyHttpRequestDescriptor :=
  __set_name__ _get_user_token_payload "app_user_token_payload".

(** [payload.get(key)] *)
Definition dict_get {S} (o : obj) (key : string) : M S obj :=
  match o with
  | ODict d => ret (OVal (default VNone (d !! key)))
  | _ => raise (AttributeError "get")
  end.

Definition _get_user_id : M Request obj :=
  (payload <- __get__ app_user_token_payload_descr ;;
   v <- dict_get payload "user_id" ;;
   u <- transform_uuid v ;;
   ret (OVal (VUuid u))).

Definition app_user_id_descr : _LazyHttpRequestDescriptor :=
  __set_name__ _get_user_id "app_user_id".

Definition _get_user : M Request obj :=
  (user_id' <- __get__ app_user_id_descr ;;
   uid <- transform_uuid user_id' ;;
   user <- on_session (query_first (fun u => N.eqb (user_id u) uid)) ;;
   match user with
   | None => raise (AuthCredentialsInvalid None)
   | Some user => ret (OUser user)
   end).

Definition app_user_descr : _LazyHttpRequestDescriptor :=
  __set_name__ _get_user "app_user".

End Program.

(** *** Call sites reading and setting identity on a request *)

Inductive stage := app_user_token | app_user_token_payload | app_user_id | app_user.

Definition descriptor (env : Env) (s : stage) : _LazyHttpRequestDescriptor :=
  match s with
  | app_user_token => app_user_token_descr
  | app_user_token_payload => app_user_token_payload_descr env
  | app_user_id => app_user_id_descr env
  | app_user => app_user_descr env
  end.

(** [request.<stage>] and [request.<stage> = v]. *)
Inductive access :=
| Get (s : stage)
| Put (s : stage) (v : obj).

Definition perform (env : Env) (a : access) : M Request unit :=
  match a with
  | Get s => (__get__ (descriptor env s) ;;; ret tt)
  | Put s v => __set__ (descriptor env s) v
  end.

(** A handler that lets the first exception end the request. *)
Definition handle (env : Env) (l : list access) : M Request unit :=
  for_each l (perform env).

(** Call sites that each guard their access and go on after a failure. *)
Fixpoint serve (env : Env) (l : list access) (r : Request) : Request :=
  match l with
  | [] => r
  | a :: rest => serve env rest (snd (perform env a r))
  end.

Fixpoint count (p : event -> bool) (l : list event) : nat :=
  match l with
  | [] => O
  | e :: rest => if p e then S (count p rest) else count p rest
  end.

Definition is_decode (e : event) : bool :=
  match e with EvDecode _ => true | _ => false end.
Definition is_good_decode (e : event) : bool :=
  match e with EvDecode true => true | _ => false end.
Definition is_query (e : event) : bool :=
  match e with EvQuery _ => true | _ => false end.
Definition is_good_query (e : event) : bool :=
  match e with EvQuery true => true | _ => false end.

Definition decodes (r : Request) : nat := count is_decode (calls (lamb_db_session r)).
Definition good_decodes (r : Request) : nat := count is_good_decode (calls (lamb_db_session r)).
Definition lookups (r : Request) : nat := count is_query (calls (lamb_db_session r)).
Definition good_lookups (r : Request) : nat := count is_good_query (calls (lamb_db_session r)).

(** The key of a stage in the instance dictionary. *)
Definition private_name (s : stage) : string :=
  match s with
  | app_user_token => "_app_user_token"
  | app_user_token_payload => "_app_user_token_payload"
  | app_user_id => "_app_user_id"
  | app_user => "_app_user"
  end.

Definition cached (s : stage) (r : Request) : Prop :=
  is_Some (__dict__ r !! private_name s).

(** ** A test double of the libraries, and sample data *)

Definition too_short : string :=
  "This password is too short. It must contain at least 8 characters.".

Definition sample_uuids : list UUID := map N.of_nat (seq 0 16).

(** Hashes are the password behind the name of a format, of which
    [pbkdf2] is the preferred one; a token is a name in a small table. *)
Definition stub : Env := {|
  validate_password := fun raw _ =>
    if (Z.of_nat (String.length raw) <? 8) then [too_short] else [];
  make_password := fun raw => "pbkdf2$" +:+ raw;
  hasher_verify := fun raw encoded =>
    String.eqb encoded ("pbkdf2$" +:+ raw) || String.eqb encoded ("md5$" +:+ raw);
  hasher_must_update := fun encoded => String.prefix "md5$" encoded;
  jwt_encode := fun payload key algorithm =>
    match payload !! "user_id", payload !! "exp" with
    | Some (VStr u), Some (VDatetime t) =>
        algorithm +:+ "." +:+ u +:+ "." +:+ pretty t +:+ "." +:+ key
    | _, _ => algorithm +:+ ".." +:+ key
    end;
  jwt_decode := fun token key algorithms now =>
    if String.eqb token "token-of-1" then Claims (<["user_id" := VStr "1"]> ∅)
    else if String.eqb token "token-of-9" then Claims (<["user_id" := VStr "9"]> ∅)
    else if String.eqb token "expired" then Refused ExpiredSignatureError
    else if String.eqb token "forged" then Refused InvalidSignatureError
    else if String.eqb token "none-alg" then Refused InvalidAlgorithmError
    else if String.eqb token "not-yet-valid" then Refused ImmatureSignatureError
    else Refused DecodeError;
  uuid_str := fun u => pretty u;
  uuid_parse := fun s => find (fun u => String.eqb (pretty u) s) sample_uuids;
  APP_JWT_SECRET_KEY := "secret";
|}.

Definition admin : AbstractUser := {|
  user_id := 1%N; user_type := SUPER_ADMIN;
  password_hash := Some "pbkdf2$correct horse";
  email := Some "admin@example.com"; is_email_confirmed := true;
  last_name := Some "Root"; first_name := Some "Ada";
  is_confirmed := true; is_blocked := false |}.

(** An operator with a hash in an old format, blocked and not confirmed. *)
Definition operator : AbstractUser := {|
  user_id := 2%N; user_type := OPERATOR;
  password_hash := Some "md5$battery staple";
  email := Some "op@example.com"; is_email_confirmed := false;
  last_name := None; first_name := None;
  is_confirmed := false; is_blocked := true |}.

(** A confirmed administrator whose account is blocked. *)
Definition blocked_admin : AbstractUser := {|
  user_id := 3%N; user_type := SUPER_ADMIN;
  password_hash := Some "pbkdf2$correct horse";
  email := Some "blocked@example.com"; is_email_confirmed := true;
  last_name := None; first_name := None;
  is_confirmed := true; is_blocked := true |}.

(** A confirmed operator stored with capitals in the address. *)
Definition bob : AbstractUser := {|
  user_id := 4%N; user_type := OPERATOR;
  password_hash := Some "pbkdf2$correct horse";
  email := Some "Bob@Example.com"; is_email_confirmed := true;
  last_name := None; first_name := Some "Bob";
  is_confirmed := true; is_blocked := false |}.

(** A confirmed operator whose old-format hash is of a password the
    validators no longer accept. *)
Definition carol : AbstractUser := {|
  user_id := 5%N; user_type := OPERATOR;
  password_hash := Some "md5$hunter2";
  email := Some "carol@example.com"; is_email_confirmed := true;
  last_name := None; first_name := Some "Carol";
  is_confirmed := true; is_blocked := false |}.

Definition world0 : World := {|
  objects := [admin; operator; blocked_admin; bob; carol];
  refresh_tokens := []; pending := []; writable := true;
  settings := ∅; log := [];
  wall := fun n => 1000000 * Z.of_nat n; reads := O; calls := [];
  stored_hashes := password_hash <$> [admin; operator; blocked_admin; bob; carol] |}.

(** The same world with a database that refuses commits. *)
Definition world_readonly : World := {|
  objects := objects world0;
  refresh_tokens := []; pending := []; writable := false;
  settings := ∅; log := [];
  wall := wall world0; reads := O; calls := [];
  stored_hashes := stored_hashes world0 |}.

Definition credentials_of (e p : string) : gmap string pyval :=
  <["email" := VStr e]> (<["password" := VStr p]> ∅).

Definition request_with (token : option string) (w : World) : Request := {|
  META := match token with
          | Some t => <["HTTP_X_LAMB_AUTH_TOKEN" := t]> ∅
          | None => ∅
          end;
  __dict__ := ∅;
  lamb_db_session := w |}.

(** ** Definitions used to state the properties *)

#[global] Instance UserType_eq_dec : EqDecision UserType.
Proof. solve_decision. Defined.

(** The table of the specification (4.4): the answer a confirmed actor
    gets. *)
Definition permission_table (cls : role) (q : question) (self : ref) : bool :=
  match cls, q with
  | RSuperAdmin, CanCreateUser t => bool_decide (t ≠ SUPER_ADMIN)
  | RSuperAdmin, CanReadUser _ => true
  | RSuperAdmin, CanEditUser _ => true
  | ROperator, CanCreateUser _ => false
  | ROperator, CanReadUser target => bool_decide (target = self)
  | ROperator, CanEditUser target => bool_decide (target = self)
  end.

(** Whether the stored hash of [u] verifies [raw]. *)
Definition verifies (env : Env) (raw : string) (u : AbstractUser) : bool :=
  match password_hash u with
  | Some encoded => hasher_verify env raw encoded
  | None => false
  end.

(** Whether a successful check of [raw] goes on to recompute the hash. *)
Definition rehash_due (env : Env) (raw : string) (u : AbstractUser) : bool :=
  match password_hash u with
  | Some encoded => hasher_verify env raw encoded && hasher_must_update env encoded
  | None => false
  end.

(** The object after [set_password]. *)
Definition rehashed (env : Env) (raw : string) (u : AbstractUser) : AbstractUser :=
  {| user_id := user_id u; user_type := user_type u;
     password_hash := Some (make_password env raw);
     email := email u; is_email_confirmed := is_email_confirmed u;
     last_name := last_name u; first_name := first_name u;
     is_confirmed := is_confirmed u; is_blocked := is_blocked u |}.

(** The one error of a refused login. *)
Definition invalid_credentials : exn :=
  AuthCredentialsInvalid (Some "User password or email is not valid").

(** The tokens issued for [uid] in the world [w]: the clock is read once
    for each. *)
Definition access_token_of (env : Env) (w : World) (uid : UUID) : string :=
  jwt_encode env
    (token_payload (uuid_str env uid)
       (wall w (reads w)
        + timedelta_minutes (default 4320 (settings w !! "access_token_timeout"))))
    (APP_JWT_SECRET_KEY env) APP_JWT_ALGORITHM.

Definition refresh_token_of (env : Env) (w : World) (uid : UUID) : string :=
  jwt_encode env
    (token_payload (uuid_str env uid)
       (wall w (S (reads w))
        + timedelta_minutes (default 43200 (settings w !! "refresh_token_timeout"))))
    (APP_JWT_SECRET_KEY env) APP_JWT_ALGORITHM.

(** The token a request carries for verification: the cached first stage,
    or else the header. *)
Definition inbound_token (r : Request) : obj :=
  match __dict__ r !! "_app_user_token" with
  | Some v => v
  | None =>
      match META r !! "HTTP_X_LAMB_AUTH_TOKEN" with
      | Some token => OVal (VStr token)
      | None => OVal VNone
      end
  end.

(** What the token library answers for that token now. *)
Definition library_verdict (env : Env) (r : Request) : verdict :=
  match inbound_token r with
  | OVal (VStr s) =>
      jwt_decode env s (APP_JWT_SECRET_KEY env) [APP_JWT_ALGORITHM]
        (wall (lamb_db_session r) (reads (lamb_db_session r)))
  | _ => Refused DecodeError
  end.

(** The session after [try: session.commit()  except Exception: pass]. *)
Definition after_commit_attempt (w : World) : World :=
  if writable w && primary_key_free w then flush w else rollback w.

(** The world after a successful [set_password] on [self]. *)
Definition with_new_hash (env : Env) (self : ref) (raw : string) (u : AbstractUser)
    (w : World) : World :=
  set_objects (fun os => <[self := rehashed env raw u]> os) w.

(** The row that [authenticate] adds for the token it returns. *)
Definition issued_row (env : Env) (w : World) (u : AbstractUser) : RefreshToken :=
  {| value := refresh_token_of env w (user_id u); token_user_id := user_id u |}.

(** Two objects that differ at most in [is_confirmed] and [is_blocked]. *)
Definition same_but_flags (u u' : AbstractUser) : Prop :=
  user_id u = user_id u' /\ user_type u = user_type u'
  /\ password_hash u = password_hash u' /\ email u = email u'
  /\ is_email_confirmed u = is_email_confirmed u'
  /\ last_name u = last_name u' /\ first_name u = first_name u'.

(** Two worlds that differ at most in those two flags of their users. *)
Definition same_world_but_flags (w w' : World) : Prop :=
  Forall2 same_but_flags (objects w) (objects w')
  /\ refresh_tokens w = refresh_tokens w' /\ pending w = pending w'
  /\ writable w = writable w' /\ settings w = settings w' /\ log w = log w'
  /\ wall w = wall w' /\ reads w = reads w' /\ calls w = calls w'
  /\ stored_hashes w = stored_hashes w'.

(** Two computations that, from such worlds, end alike: with results
    related by [Q] or with the same exception, in such worlds again. *)
Definition alike {A} (Q : A -> A -> Prop) (m m' : M World A) : Prop :=
  forall w w', same_world_but_flags w w' ->
    match m w, m' w' with
    | (Ok a, v), (Ok a', v') => Q a a' /\ same_world_but_flags v v'
    | (Raise e, v), (Raise e', v') => e = e' /\ same_world_but_flags v v'
    | _, _ => False
    end.

(** The validators do not read the two flags. *)
Definition flag_blind (env : Env) : Prop :=
  forall raw u u', same_but_flags u u' ->
    validate_password env raw u = validate_password env raw u'.

(** [world0] with the operator confirmed and not blocked. *)
Definition cleared_operator : AbstractUser := {|
  user_id := 2%N; user_type := OPERATOR;
  password_hash := Some "md5$battery staple";
  email := Some "op@example.com"; is_email_confirmed := false;
  last_name := None; first_name := None;
  is_confirmed := true; is_blocked := false |}.

Definition world0_cleared : World := {|
  objects := [admin; cleared_operator; blocked_admin; bob; carol];
  refresh_tokens := []; pending := []; writable := true;
  settings := ∅; log := [];
  wall := wall world0; reads := O; calls := [];
  stored_hashes := stored_hashes world0 |}.

Definition is_ok {A} (x : Result A) : bool :=
  match x with Ok _ => true | Raise _ => false end.

(** What one access may add to the calls of one collaborator, counted by
    [total] and, for the calls that were answered, by [good], when the
    result of the collaborator is kept in stage [s]: nothing; or, the stage
    not being cached, exactly one call, which was either answered and is
    now cached, or refused, and then the access failed. *)
Definition at_most_one_call (total good : Request -> nat) (s : stage)
    (r : Request) (ok : bool) (r' : Request) : Prop :=
  (total r' = total r /\ good r' = good r)
  \/ (~ cached s r /\ total r' = S (total r)
      /\ ((good r' = S (good r) /\ cached s r') \/ (good r' = good r /\ ok = false))).

(** What is cached stays cached. *)
Definition keeps_cache (r r' : Request) : Prop :=
  forall s, cached s r -> cached s r'.

(** A request on which no stage above the first is read. *)
Definition reads_token_only (a : access) : bool :=
  match a with
  | Get app_user_token => true
  | Get _ => false
  | Put _ _ => true
  end.

(** What [_get_user_token_payload] makes of the library's answer. *)
Definition converted (v : verdict) : Result obj :=
  match v with
  | Claims payload => Ok (ODict payload)
  | Refused ExpiredSignatureError => Raise AuthCredentialsExpired
  | Refused DecodeError
  | Refused InvalidSignatureError
  | Refused InvalidAlgorithmError => Raise (AuthCredentialsInvalid None)
  | Refused e => Raise (JwtError e)
  end.

(** The request after its first stage was read, and after the library was
    asked about its token. *)
Definition after_token (r : Request) : Request :=
  match __dict__ r !! "_app_user_token" with
  | Some _ => r
  | None => set_dict (<["_app_user_token" := inbound_token r]>) r
  end.

Definition after_decode (env : Env) (r : Request) : Request :=
  {| META := META r; __dict__ := __dict__ (after_token r);
     lamb_db_session :=
       add_call (EvDecode (match library_verdict env r with
                           | Claims _ => true
                           | Refused _ => false
                           end)) (tick (lamb_db_session r)) |}.

(** One access asks each collaborator at most once. *)
Definition bounded_access (r : Request) (ok : bool) (r' : Request) : Prop :=
  at_most_one_call decodes good_decodes app_user_token_payload r ok r'
  /\ at_most_one_call lookups good_lookups app_user r ok r'
  /\ keeps_cache r r'.

(** A count of calls whose result is kept in stage [s]: still none, or one
    and the stage cached. *)
Definition once (count : Request -> nat) (s : stage) (r : Request) : Prop :=
  count r = O \/ (count r = 1%nat /\ cached s r).

(** ** Engines and views ([api/auth/auth_engines], [api/views.py], [api/utils.py]) *)

(** The engine classes.  [EmailAuthEngine] overrides [authenticate] and
    [bounded] and inherits the rest. *)
Inductive engine := AbstractAuthEngine | EmailAuthEngine.

Definition __identity__ (cls : engine) : option string :=
  match cls with
  | AbstractAuthEngine => None
  | EmailAuthEngine => Some "email"
  end.

(** An optional string inside an f-string. *)
Definition fmt (x : option string) : string := default "None" x.

(** [auth_engine_identity_map]: the listed classes under their lower-cased
    identity. *)
Definition auth_engine_identity_map : gmap string engine :=
  list_to_map (omap (fun e => (fun i => (lower i, e)) <$> __identity__ e) [EmailAuthEngine]).

(** A value of a parsed JSON body: a string, an object, or anything
    else. *)
Inductive json :=
| JStr (s : string)
| JDict (d : gmap string pyval)
| JOther.

Definition as_str (v : json) : option string :=
  match v with JStr s => Some s | _ => None end.

Definition as_dict (v : json) : option (gmap string pyval) :=
  match v with JDict d => Some d | _ => None end.

(** [dpath_value(body, key, type)] on a body, as [dpath_value_str] on
    credentials. *)
Definition dpath_value_body {S A} (body : gmap string json) (key : string)
    (as_type : json -> option A) : M S A :=
  match body !! key with
  | None =>
      raise (InvalidBodyStructureError
               ("Could not locate field for key_path " +:+ key +:+ " from provided dict data"))
  | Some v =>
      match as_type v with
      | Some a => ret a
      | None => raise (InvalidParamTypeError ("Invalid data type for param " +:+ key))
      end
  end.

Definition _get_auth_engine {S} (parsed_body : gmap string json) : M S engine :=
  (engine_name <- dpath_value_body parsed_body "engine" as_str ;;
   let engine_name := lower engine_name in
   match auth_engine_identity_map !! engine_name with
   | Some e => ret e
   | None => raise (InvalidParamValueError ("Unknown auth engine='" +:+ engine_name +:+ "'") [])
   end).

(** A response: its status, its data and the cookies set on it. *)
Record Cookie := {
  cookie_value : string;
  httponly : bool;
  secure : bool;
  samesite : option string;
}.

Record JsonResponse := {
  status : Z;
  data : option (gmap string obj);
  cookies : gmap string Cookie;
}.

Definition set_cookie (key : string) (c : Cookie) (result : JsonResponse) : JsonResponse :=
  {| status := status result; data := data result;
     cookies := <[key := c]> (cookies result) |}.

(** The exceptions that the views add to those below, and computations
    that may raise them. *)
Inductive exc :=
| Lamb (e : exn)
| NotExistError (msg : string)
| AuthForbidden (msg : string).

Inductive Outcome (A : Type) :=
| Done (a : A)
| Fail (e : exc).
Arguments Done {A} a.
Arguments Fail {A} e.

Definition V (S A : Type) : Type := S -> Outcome A * S.

Definition vret {S A} (a : A) : V S A := fun s => (Done a, s).
Definition vraise {S A} (e : exc) : V S A := fun s => (Fail e, s).
Definition vbind {S A B} (m : V S A) (k : A -> V S B) : V S B :=
  fun s =>
    match m s with
    | (Done a, s') => k a s'
    | (Fail e, s') => (Fail e, s')
    end.
Definition lift {S A} (m : M S A) : V S A :=
  fun s =>
    match m s with
    | (Ok a, s') => (Done a, s')
    | (Raise e, s') => (Fail (Lamb e), s')
    end.

Notation "x <~ m ;; k" := (vbind m (fun x => k))
  (at level 100, m at next level, right associativity) : py_scope.

(** The class of a loaded object, by its [user_type]; [AbstractUser]
    itself has no permission method. *)
Definition class_of (u : AbstractUser) : option role :=
  match user_type u with
  | SUPER_ADMIN => Some RSuperAdmin
  | OPERATOR => Some ROperator
  | USER => None
  end.

(** [actor.can_read_user(user)]: the method of the actor's class.  An
    argument that is no user is the same object as no user. *)
Definition can_read_user (actor user : obj) : M World bool :=
  match actor with
  | OUser a =>
      (u <- deref a ;;
       match class_of u, user with
       | Some cls, OUser target => ask cls (CanReadUser target) a
       | Some RSuperAdmin, _ =>
           user_check [check_account_confirmed] None (fun _ (_ : obj) => ret true) a user
       | Some ROperator, _ =>
           user_check [check_account_confirmed] None (fun _ (_ : obj) => ret false) a user
       | None, _ => raise (AttributeError "can_read_user")
       end)
  | _ => raise (AttributeError "can_read_user")
  end.

(** [isinstance(o, (SuperAdmin, Operator))] *)
Definition isinstance_SuperAdmin_or_Operator (o : obj) : M World bool :=
  match o with
  | OUser a =>
      gets (fun w => match objects w !! a with
                     | Some u => bool_decide (is_Some (class_of u))
                     | None => false
                     end)
  | _ => ret false
  end.

(** [session.query(AbstractUser).get(user_id)]: the user with that primary
    key. *)
Definition query_get (uid : UUID) : M World (option ref) :=
  query_first (fun u => N.eqb (user_id u) uid).

(** A request together with the queue of the task
    [store_exchanges_rates_task]: the arguments of the calls sent. *)
Record App := {
  request : Request;
  store_exchanges_rates_task : list (list obj);
}.

Definition on_request {A} (m : V Request A) : V App A :=
  fun s =>
    match m (request s) with
    | (x, r') =>
        (x, {| request := r'; store_exchanges_rates_task := store_exchanges_rates_task s |})
    end.

(** [task.apply_async(args)] *)
Definition apply_async (args : list obj) : V App unit :=
  fun s =>
    (Done tt, {| request := request s;
                 store_exchanges_rates_task := store_exchanges_rates_task s ++ [args] |}).

Section Views.

Context (env : Env).

(** [engine.authenticate(credentials)] by the class of the engine.  The
    constructor is given the session of the request, which is a
    session. *)
Definition engine_authenticate (cls : engine) (credentials : gmap string pyval)
  : M World (string * string * ref) :=
  match cls with
  | EmailAuthEngine => authenticate env credentials
  | AbstractAuthEngine =>
      raise (NotRealizedMethodError
               ("Authenticate operation with engine '" +:+ fmt (__identity__ cls)
                +:+ "' not realized yet"))
  end.

(** [AuthRegisterView.post] *)
Definition AuthRegisterView_post (parsed_body : gmap string json) : M Request JsonResponse :=
  (engine_class <- _get_auth_engine parsed_body ;;
   credentials <- dpath_value_body parsed_body "credentials" as_dict ;;
   res <- on_session (engine_authenticate engine_class credentials) ;;
   let '(access_token, refresh_token, user) := res in
   __set__ app_user_token_descr (OVal (VStr access_token)) ;;;
   __set__ (app_user_descr env) (OUser user) ;;;
   on_session commit ;;;
   let result :=
     {| status := 200;
        data := Some (<["access_token" := OVal (VStr access_token)]>
                        (<["user" := OUser user]> ∅));
        cookies := ∅ |} in
   ret (set_cookie "refresh_token"
          {| cookie_value := refresh_token; httponly := true; secure := true;
             samesite := Some "strict" |} result)).

(** [get_user_by_identifier] *)
Definition get_user_by_identifier (user_id : string) : V Request obj :=
  if String.eqb user_id "me" then lift (__get__ (app_user_descr env))
  else
    (uid <~ lift (transform_uuid env (OVal (VStr user_id))) ;;
     user <~ lift (on_session (query_get uid)) ;;
     match user with
     | None =>
         vraise (NotExistError
                   ("User with user_id: " +:+ uuid_str env uid +:+ " does not exists"))
     | Some user => vret (OUser user)
     end).

(** [UserView.get] *)
Definition UserView_get (user_id : string) : V Request obj :=
  (user <~ get_user_by_identifier user_id ;;
   actor <~ lift (__get__ (app_user_descr env)) ;;
   allowed <~ lift (on_session (can_read_user actor user)) ;;
   if negb allowed
   then vraise (AuthForbidden ("You have not access to user with user_id: " +:+ user_id))
   else vret user).

(** [StoreExchangeRatesView.post] *)
Definition StoreExchangeRatesView_post : V App JsonResponse :=
  (actor <~ on_request (lift (__get__ (app_user_descr env))) ;;
   allowed <~ on_request (lift (on_session (isinstance_SuperAdmin_or_Operator actor))) ;;
   if negb allowed
   then vraise (AuthForbidden "You have not access to store exchanges rates.")
   else
     (actor_id <~ on_request (lift (__get__ (app_user_id_descr env))) ;;
      _ <~ apply_async [actor_id] ;;
      vret {| status := 201; data := None; cookies := ∅ |})).

End Views.

(** ** Validators of column values ([api/models.py]) *)

(** Text as a sequence of characters, for whatever characters there are:
    [isspace] tells the white space that [str.strip] and [str.split] look
    for, [space] is the one character of the separator [" "]. *)
Section Text.

Context {char : Type} (isspace : char -> bool) (space : char).

Fixpoint lstrip (s : list char) : list char :=
  match s with
  | [] => []
  | c :: rest => if isspace c then lstrip rest else s
  end.

Definition rstrip (s : list char) : list char := rev (lstrip (rev s)).

(** [s.strip()] *)
Definition strip (s : list char) : list char := rstrip (lstrip s).

(** [s.split()]: the maximal runs of characters that are not white space,
    read from left to right; [word] is the run being read. *)
Fixpoint split_from (word : list char) (s : list char) : list (list char) :=
  match s with
  | [] => match word with [] => [] | _ => [word] end
  | c :: rest =>
      if isspace c
      then match word with
           | [] => split_from [] rest
           | _ => word :: split_from [] rest
           end
      else split_from (word ++ [c]) rest
  end.

Definition split (s : list char) : list (list char) := split_from [] s.

(** [sep.join(words)] *)
Fixpoint join (sep : list char) (words : list (list char)) : list char :=
  match words with
  | [] => []
  | [w] => w
  | w :: rest => w ++ sep ++ join sep rest
  end.

Definition _validate_string_length (value : option (list char)) (key : string)
    (max_length : Z) (trimming : bool) (max_length_required : bool)
  : Result (option (list char)) :=
  match value with
  | Some value =>
      let value := strip value in
      let value := if trimming then join [space] (split value) else value in
      if (Z.of_nat (length value) >? max_length)
      then Raise (InvalidParamValueError
                    ("Maximum length exceed for field '" +:+ key
                     +:+ "'. Maximum length is " +:+ pretty max_length +:+ " symbols.") [])
      else if max_length_required && negb (Z.of_nat (length value) =? max_length)
           then Raise (InvalidParamValueError
                         ("Field '" +:+ key +:+ "' length should be " +:+ pretty max_length
                          +:+ ".") [])
           else Ok (Some value)
  | None => Ok None
  end.

(** [AbstractUser.validate_social_network_id] *)
Definition validate_social_network_id (key : string) (value : option (list char))
  : Result (option (list char)) :=
  _validate_string_length value key 150 true false.

(** A word: not empty, and without white space. *)
Definition is_word (w : list char) : Prop :=
  w <> [] /\ forallb (fun c => negb (isspace c)) w = true.

End Text.

(** White space among the ASCII characters. *)
Definition ascii_isspace (c : Ascii.ascii) : bool :=
  let n := Ascii.N_of_ascii c in
  (((9 <=? n) && (n <=? 13)) || ((28 <=? n) && (n <=? 32)))%N.

(** The character of [" "]. *)
Definition ascii_space : Ascii.ascii := Ascii.ascii_of_N 32.

(** *** Regular expressions, as far as the pattern of [validate_name] needs them *)

Inductive regex :=
| Void
| Eps
| Class (p : Ascii.ascii -> bool)
| Cat (r1 r2 : regex)
| Alt (r1 r2 : regex)
| Star (r : regex).

(** [r+] *)
Definition Plus (r : regex) : regex := Cat r (Star r).

Fixpoint nullable (r : regex) : bool :=
  match r with
  | Void => false
  | Eps => true
  | Class _ => false
  | Cat r1 r2 => nullable r1 && nullable r2
  | Alt r1 r2 => nullable r1 || nullable r2
  | Star _ => true
  end.

(** What is left of [r] after the character [c]. *)
Fixpoint deriv (c : Ascii.ascii) (r : regex) : regex :=
  match r with
  | Void => Void
  | Eps => Void
  | Class p => if p c then Eps else Void
  | Cat r1 r2 =>
      if nullable r1 then Alt (Cat (deriv c r1) r2) (deriv c r2)
      else Cat (deriv c r1) r2
  | Alt r1 r2 => Alt (deriv c r1) (deriv c r2)
  | Star r1 => Cat (deriv c r1) (Star r1)
  end.

(** Whether [r] matches all of [s]. *)
Fixpoint fullmatch (r : regex) (s : string) : bool :=
  match s with
  | EmptyString => nullable r
  | String c rest => fullmatch (deriv c r) rest
  end.

(** A class given by its members, and a single character. *)
Definition one_of (members : string) (c : Ascii.ascii) : bool :=
  existsb (Ascii.eqb c) (String.list_ascii_of_string members).

Definition a_z : string := "abcdefghijklmnopqrstuvwxyz".
Definition A_Z : string := "ABCDEFGHIJKLMNOPQRSTUVWXYZ".
Definition digits : string := "0123456789".

Definition newline : string := String (Ascii.ascii_of_N 10) "".

(** [re.match(pattern + "$", s) is not None], for a [pattern] without
    anchors: a match starts at the first character, and [$] is the end of
    the string or the place before a newline that ends it. *)
Definition re_match_to_end (pattern : regex) (s : string) : bool :=
  fullmatch (Cat pattern (Alt Eps (Class (one_of newline)))) s.

(** [[a-zA-Z0-9_.+-]+@[a-zA-Z0-9-]+\.[a-zA-Z0-9-.]+] *)
Definition local_part : Ascii.ascii -> bool := one_of (a_z +:+ A_Z +:+ digits +:+ "_.+-").
Definition domain_label : Ascii.ascii -> bool := one_of (a_z +:+ A_Z +:+ digits +:+ "-").
Definition domain_rest : Ascii.ascii -> bool := one_of (a_z +:+ A_Z +:+ digits +:+ "-.").

Definition email_pattern : regex :=
  Cat (Plus (Class local_part))
    (Cat (Class (one_of "@"))
       (Cat (Plus (Class domain_label))
          (Cat (Class (one_of "."))
             (Plus (Class domain_rest))))).

(** [AbstractUser.validate_name], the validator of [email]. *)
Definition validate_name (key : string) (value : option string) : Result (option string) :=
  match value with
  | Some v =>
      if negb (re_match_to_end email_pattern v)
      then Raise (InvalidParamValueError ("Invalid email format for field '" +:+ key +:+ "'.") [])
      else Ok value
  | None => Ok value
  end.

(** The strings of a regular expression. *)
Inductive lang : regex -> string -> Prop :=
| lang_eps : lang Eps ""
| lang_class p c : p c = true -> lang (Class p) (String c "")
| lang_cat r1 r2 s1 s2 : lang r1 s1 -> lang r2 s2 -> lang (Cat r1 r2) (s1 +:+ s2)
| lang_alt_l r1 r2 s : lang r1 s -> lang (Alt r1 r2) s
| lang_alt_r r1 r2 s : lang r2 s -> lang (Alt r1 r2) s
| lang_star_nil r : lang (Star r) ""
| lang_star_cons r s1 s2 : lang r s1 -> lang (Star r) s2 -> lang (Star r) (s1 +:+ s2).

(** A string that is not empty and has all its characters in a class. *)
Fixpoint all_in (p : Ascii.ascii -> bool) (s : string) : bool :=
  match s with
  | EmptyString => true
  | String c rest => p c && all_in p rest
  end.

Definition some_in (p : Ascii.ascii -> bool) (s : string) : Prop :=
  s <> "" /\ all_in p s = true.

(** A login body, as a client sends it. *)
Definition login_body (engine_name e p : string) : gmap string json :=
  <["engine" := JStr engine_name]> (<["credentials" := JDict (credentials_of e p)]> ∅).

(** ** Further definitions used to state properties *)

(** Two objects that differ at most in [password_hash]. *)
Definition same_but_hash (u u' : AbstractUser) : Prop :=
  user_id u = user_id u' /\ user_type u = user_type u'
  /\ email u = email u' /\ is_email_confirmed u = is_email_confirmed u'
  /\ last_name u = last_name u' /\ first_name u = first_name u'
  /\ is_confirmed u = is_confirmed u' /\ is_blocked u = is_blocked u'.

(** A later world of the same session: the rows of the token table are
    still there, in place, maybe followed by new ones; the users are the
    same objects, changed at most in their hash. *)
Definition later_world (w w' : World) : Prop :=
  (exists added, refresh_tokens w' = refresh_tokens w ++ added)
  /\ Forall2 same_but_hash (objects w) (objects w').

(** A computation that only ever leads to a later world. *)
Definition conservative {A} (m : M World A) : Prop :=
  forall w, later_world w (snd (m w)).

(** The request after its four stages were computed from a verified
    token: the stages cached, the token library asked once and the storage
    once. *)
Definition resolved (r : Request) (payload : gmap string pyval) (uid : UUID) (a : ref)
  : Request :=
  {| META := META r;
     __dict__ :=
       <["_app_user" := OUser a]>
         (<["_app_user_id" := OVal (VUuid uid)]>
            (<["_app_user_token_payload" := ODict payload]>
               (<["_app_user_token" := inbound_token r]> (__dict__ r))));
     lamb_db_session :=
       add_call (EvQuery true) (add_call (EvDecode true) (tick (lamb_db_session r))) |}.

(** A request whose actor is resolved already. *)
Definition request_of (actor : ref) (w : World) : Request :=
  set_dict (<["_app_user" := OUser actor]>) (request_with None w).

(** A second test double, whose token codec goes there and back: a token
    is the text of the user id it was made for. *)
Definition codec : Env := {|
  validate_password := validate_password stub;
  make_password := make_password stub;
  hasher_verify := hasher_verify stub;
  hasher_must_update := hasher_must_update stub;
  jwt_encode := fun payload key algorithm =>
    match payload !! "user_id" with
    | Some (VStr u) => u
    | _ => ""
    end;
  jwt_decode := fun token key algorithms now => Claims (<["user_id" := VStr token]> ∅);
  uuid_str := uuid_str stub;
  uuid_parse := uuid_parse stub;
  APP_JWT_SECRET_KEY := "secret";
|}.

(** ** Properties *)

(** *** The monad and the session *)

Lemma deref_Some (w : World) (r : ref) (u : AbstractUser) :
  objects w !! r = Some u -> deref r w = (Ok u, w).
Proof. intros H. unfold deref. by rewrite H. Qed.

Lemma find_index_Some {A} (p : A -> bool) (l : list A) (i : nat) :
  find_index p l = Some i -> exists x, l !! i = Some x /\ p x = true.
Proof.
  revert i. induction l as [|a l IH]; intros i; simpl; [done|].
  destruct (p a) eqn:Hp.
  - intros [= <-]. by exists a.
  - destruct (find_index p l) as [j|]; simpl; [|done].
    intros [= <-]. apply (IH j). reflexivity.
Qed.

(** *** Permission predicates *)

Lemma check_account_confirmed_run (w : World) (r : ref) (u : AbstractUser) :
  objects w !! r = Some u ->
  check_account_confirmed r w
  = (if is_confirmed u then Ok tt else Raise UserIsNotConfirmedError, w).
Proof.
  intros H. unfold check_account_confirmed, bind. rewrite (deref_Some _ _ _ H).
  by destruct (is_confirmed u).
Qed.

Lemma user_check_confirmed_run {A} (func : ref -> A -> M World bool)
    (self : ref) (arg : A) (w : World) (u : AbstractUser) :
  objects w !! self = Some u ->
  user_check [check_account_confirmed] None func self arg w
  = if is_confirmed u then func self arg w else (Raise UserIsNotConfirmedError, w).
Proof.
  intros H. unfold user_check, bind, for_each, bind.
  rewrite (check_account_confirmed_run _ _ _ H).
  by destruct (is_confirmed u).
Qed.

Lemma UserType_eqb_decide (t : UserType) :
  negb (UserType_eqb t SUPER_ADMIN) = bool_decide (t ≠ SUPER_ADMIN).
Proof. by destruct t. Qed.

(** Every decorated method answers by the confirmation flag of the actor
    alone, and leaves the world as it found it. *)
Lemma ask_run (cls : role) (q : question) (self : ref) (w : World) (u : AbstractUser) :
  objects w !! self = Some u ->
  ask cls q self w
  = (if is_confirmed u then Ok (permission_table cls q self)
     else Raise UserIsNotConfirmedError, w).
Proof.
  intros H.
  destruct cls, q; simpl;
    unfold SuperAdmin.can_create_user, SuperAdmin.can_read_user, SuperAdmin.can_edit_user,
      Operator.can_create_user, Operator.can_read_user, Operator.can_edit_user;
    rewrite (user_check_confirmed_run _ _ _ _ _ H); unfold ret;
    rewrite ?UserType_eqb_decide; by destruct (is_confirmed u).
Qed.

(** The administrator of [world0] may create an operator and no second
    administrator; the unconfirmed operator may not even read itself. *)
Example admin_creates_operators_only :
  fst (SuperAdmin.can_create_user 0%nat OPERATOR world0) = Ok true
  /\ fst (SuperAdmin.can_create_user 0%nat SUPER_ADMIN world0) = Ok false
  /\ fst (Operator.can_read_user 1%nat 1%nat world0) = Raise UserIsNotConfirmedError
  /\ fst (Operator.can_read_user 3%nat 3%nat world0) = Ok true
  /\ fst (Operator.can_read_user 3%nat 0%nat world0) = Ok false.
Proof. repeat split. Qed.

(** C3.  Whichever of the six decorated predicates is called, on whichever
    arguments: when the actor is not confirmed the call raises
    [UserIsNotConfirmedError], when it is confirmed the call returns a
    boolean, and in both cases the world is left as it was. *)
Theorem unconfirmed_actor_is_refused
    (cls : role) (q : question) (self : ref) (w : World) (u : AbstractUser) :
  objects w !! self = Some u ->
  (is_confirmed u = false -> ask cls q self w = (Raise UserIsNotConfirmedError, w))
  /\ (is_confirmed u = true -> exists b : bool, ask cls q self w = (Ok b, w)).
Proof.
  intros H. rewrite (ask_run _ _ _ _ _ H). split; intros ->; eauto.
Qed.

Lemma unconfirmed_actor_is_refused_witness :
  (is_confirmed operator = false ->
   ask ROperator (CanReadUser 1%nat) 1%nat world0 = (Raise UserIsNotConfirmedError, world0))
  /\ (is_confirmed operator = true ->
      exists b : bool, ask ROperator (CanReadUser 1%nat) 1%nat world0 = (Ok b, world0)).
Proof.
  apply (unconfirmed_actor_is_refused ROperator (CanReadUser 1%nat) 1%nat world0 operator).
  reflexivity.
Defined.

(** C4.  For a confirmed actor: [SuperAdmin.can_create_user t] is true
    exactly when [t] is not [SUPER_ADMIN], [SuperAdmin.can_read_user] and
    [SuperAdmin.can_edit_user] are true for every target;
    [Operator.can_create_user] is false for every role,
    [Operator.can_read_user] and [Operator.can_edit_user] are true exactly
    when the target is the actor itself. *)
Theorem permission_table_of_confirmed_actor (self : ref) (w : World) (u : AbstractUser) :
  objects w !! self = Some u ->
  is_confirmed u = true ->
  (forall t, SuperAdmin.can_create_user self t w = (Ok (bool_decide (t ≠ SUPER_ADMIN)), w))
  /\ (forall target, SuperAdmin.can_read_user self target w = (Ok true, w))
  /\ (forall target, SuperAdmin.can_edit_user self target w = (Ok true, w))
  /\ (forall t, Operator.can_create_user self t w = (Ok false, w))
  /\ (forall target, Operator.can_read_user self target w = (Ok (bool_decide (target = self)), w))
  /\ (forall target, Operator.can_edit_user self target w = (Ok (bool_decide (target = self)), w)).
Proof.
  intros H Hc.
  pose proof (fun cls q => ask_run cls q self w u H) as Hask.
  rewrite Hc in Hask.
  repeat split; intros x.
  - exact (Hask RSuperAdmin (CanCreateUser x)).
  - exact (Hask RSuperAdmin (CanReadUser x)).
  - exact (Hask RSuperAdmin (CanEditUser x)).
  - exact (Hask ROperator (CanCreateUser x)).
  - exact (Hask ROperator (CanReadUser x)).
  - exact (Hask ROperator (CanEditUser x)).
Qed.

Lemma permission_table_of_confirmed_actor_witness :
  (forall t, SuperAdmin.can_create_user 0%nat t world0
             = (Ok (bool_decide (t ≠ SUPER_ADMIN)), world0))
  /\ (forall target, SuperAdmin.can_read_user 0%nat target world0 = (Ok true, world0))
  /\ (forall target, SuperAdmin.can_edit_user 0%nat target world0 = (Ok true, world0))
  /\ (forall t, Operator.can_create_user 0%nat t world0 = (Ok false, world0))
  /\ (forall target, Operator.can_read_user 0%nat target world0
                     = (Ok (bool_decide (target = 0%nat)), world0))
  /\ (forall target, Operator.can_edit_user 0%nat target world0
                     = (Ok (bool_decide (target = 0%nat)), world0)).
Proof.
  apply (permission_table_of_confirmed_actor 0%nat world0 admin); reflexivity.
Defined.

(** C8, as the code has it.  No predicate looks at [is_blocked]: a blocked
    actor gets what the confirmation flag alone decides, the boolean of the
    table when confirmed and [UserIsNotConfirmedError] when not, so
    [UserIsBlockedError] is never raised; that class is declared with
    status 403. *)
Theorem blocked_actor_is_not_refused
    (cls : role) (q : question) (self : ref) (w : World) (u : AbstractUser) :
  objects w !! self = Some u ->
  is_blocked u = true ->
  ask cls q self w
  = (if is_confirmed u then Ok (permission_table cls q self)
     else Raise UserIsNotConfirmedError, w)
  /\ fst (ask cls q self w) ≠ Raise UserIsBlockedError
  /\ _status_code UserIsBlockedError = Some 403.
Proof.
  intros H _. rewrite (ask_run _ _ _ _ _ H).
  repeat split. simpl. by destruct (is_confirmed u).
Qed.

Lemma blocked_actor_is_not_refused_witness :
  ask RSuperAdmin (CanEditUser 0%nat) 2%nat world0
  = (if is_confirmed blocked_admin
     then Ok (permission_table RSuperAdmin (CanEditUser 0%nat) 2%nat)
     else Raise UserIsNotConfirmedError, world0)
  /\ fst (ask RSuperAdmin (CanEditUser 0%nat) 2%nat world0) ≠ Raise UserIsBlockedError
  /\ _status_code UserIsBlockedError = Some 403.
Proof.
  apply (blocked_actor_is_not_refused RSuperAdmin (CanEditUser 0%nat) 2%nat world0 blocked_admin);
    reflexivity.
Defined.

(** C8, as stated, fails: a confirmed administrator whose account is
    blocked asks to read a user and is answered [True]. *)
Lemma blocked_admin_reads_users :
  objects world0 !! 2%nat = Some blocked_admin
  /\ is_blocked blocked_admin = true
  /\ SuperAdmin.can_read_user 2%nat 0%nat world0 = (Ok true, world0).
Proof. repeat split. Qed.

(** *** Passwords *)

Section Passwords.

Context (env : Env).

Lemma update_run (r : ref) (f : AbstractUser -> AbstractUser) (w : World) (u : AbstractUser) :
  objects w !! r = Some u ->
  update r f w = (Ok tt, set_objects (fun os => <[r := f u]> os) w).
Proof. intros H. unfold update, modify, set_objects. by rewrite H. Qed.

Lemma set_password_run (self : ref) (raw : string) (w : World) (u : AbstractUser) :
  objects w !! self = Some u ->
  set_password env self raw w
  = match validate_password env raw u with
    | [] => (Ok tt, with_new_hash env self raw u w)
    | m :: ms =>
        (Raise (InvalidParamValueError "Invalid password value" (m :: ms)),
         add_log (INFO, "User password is invalid. Details: " +:+ repr_list (m :: ms)) w)
    end.
Proof.
  intros H. unfold set_password, bind. rewrite (deref_Some _ _ _ H).
  destruct (validate_password env raw u) as [|m ms]; [|reflexivity].
  by rewrite (update_run _ _ _ _ H).
Qed.

Lemma try_commit_run (w : World) :
  try_pass commit w = (Ok tt, after_commit_attempt w).
Proof.
  unfold try_pass, commit, after_commit_attempt.
  by destruct (writable w && primary_key_free w).
Qed.

(** [check_password] in full: a refused password leaves the world alone; a
    verified one with a hash in the preferred format as well; a verified
    one with an outdated hash runs [set_password], whose refusal is logged
    and raised, and then attempts a commit, whose failure is dropped. *)
Lemma check_password_run (self : ref) (raw : string) (w : World) (u : AbstractUser) :
  objects w !! self = Some u ->
  check_password env self (Some raw) w
  = if rehash_due env raw u
    then match validate_password env raw u with
         | [] => (Ok true, after_commit_attempt (with_new_hash env self raw u w))
         | m :: ms =>
             (Raise (InvalidParamValueError "Invalid password value" (m :: ms)),
              add_log (INFO, "User password is invalid. Details: " +:+ repr_list (m :: ms)) w)
         end
    else (Ok (verifies env raw u), w).
Proof.
  intros H. unfold check_password, bind. rewrite (deref_Some _ _ _ H).
  unfold rehash_due, verifies, hashers_check_password.
  destruct (password_hash u) as [encoded|]; [|reflexivity].
  destruct (hasher_verify env raw encoded); simpl; [|reflexivity].
  destruct (hasher_must_update env encoded); simpl; [|reflexivity].
  unfold bind. rewrite (set_password_run _ _ _ _ H).
  destruct (validate_password env raw u) as [|m ms]; [|reflexivity].
  unfold object_session_commit. by rewrite try_commit_run.
Qed.

(** C9, as the code has it.  When a password verifies against a hash in an
    outdated format and the validators accept it, [check_password] returns
    [True] whether or not the commit of the new hash goes through: a failed
    commit is dropped, and nothing is written to the log. *)
Theorem failed_rehash_commit_is_dropped
    (self : ref) (raw encoded : string) (w : World) (u : AbstractUser) :
  objects w !! self = Some u ->
  password_hash u = Some encoded ->
  hasher_verify env raw encoded = true ->
  hasher_must_update env encoded = true ->
  validate_password env raw u = [] ->
  fst (check_password env self (Some raw) w) = Ok true
  /\ log (snd (check_password env self (Some raw) w)) = log w.
Proof.
  intros H Hh Hv Hm Hok.
  rewrite (check_password_run _ _ _ _ H).
  unfold rehash_due. rewrite Hh, Hv, Hm, Hok. simpl.
  unfold after_commit_attempt.
  by destruct (writable _ && primary_key_free _).
Qed.

End Passwords.

(** A wrong password changes nothing; a right one against an old-format
    hash recomputes the hash. *)
Example check_password_samples :
  check_password stub 0%nat (Some "wrong horse") world0 = (Ok false, world0)
  /\ fst (check_password stub 0%nat (Some "correct horse") world0) = Ok true
  /\ fst (check_password stub 0%nat None world0) = Ok false
  /\ password_hash <$> objects (snd (check_password stub 1%nat (Some "battery staple") world0))
                       !! 1%nat
     = Some (Some "pbkdf2$battery staple").
Proof. repeat split. Qed.

Lemma failed_rehash_commit_is_dropped_witness :
  fst (check_password stub 1%nat (Some "battery staple") world_readonly) = Ok true
  /\ log (snd (check_password stub 1%nat (Some "battery staple") world_readonly))
     = log world_readonly.
Proof.
  apply (failed_rehash_commit_is_dropped stub 1%nat "battery staple" "md5$battery staple"
           world_readonly operator); reflexivity.
Defined.

(** C9, as stated, fails twice.  With a database that refuses the commit,
    the check of a verified password against an old-format hash returns
    [True] and the log stays empty: the failure is dropped, not logged.
    And when the validators refuse the verified password, the recomputation
    itself raises [InvalidParamValueError] out of [check_password]. *)
Lemma rehash_neither_logs_nor_always_returns :
  (writable world_readonly = false
   /\ rehash_due stub "battery staple" operator = true
   /\ fst (check_password stub 1%nat (Some "battery staple") world_readonly) = Ok true
   /\ log (snd (check_password stub 1%nat (Some "battery staple") world_readonly)) = [])
  /\ (objects world0 !! 4%nat = Some carol
      /\ verifies stub "hunter2" carol = true
      /\ fst (check_password stub 4%nat (Some "hunter2") world0)
         = Raise (InvalidParamValueError "Invalid password value" [too_short])).
Proof. repeat split. Qed.

(** *** Authentication *)

Section Authentication.

Context (env : Env).

Lemma _get_info_run (credentials : gmap string pyval) (e p : string) (w : World) :
  credentials !! "email" = Some (VStr e) ->
  credentials !! "password" = Some (VStr p) ->
  _get_info credentials true w
  = (Ok (lower e, Some p, find_index (email_is (lower e)) (objects w)),
     add_call (EvQuery (bool_decide (is_Some (find_index (email_is (lower e)) (objects w))))) w).
Proof.
  intros He Hp. unfold _get_info, bind, dpath_value_str. rewrite He, Hp. reflexivity.
Qed.

Lemma _create_token_pair_run (uid : UUID) (w : World) :
  _create_token_pair env uid w
  = (Ok (access_token_of env w uid, refresh_token_of env w uid), tick (tick w)).
Proof. reflexivity. Qed.

Lemma rehash_due_verifies (raw : string) (u : AbstractUser) :
  verifies env raw u = false -> rehash_due env raw u = false.
Proof.
  unfold verifies, rehash_due. destruct (password_hash u); [|done]. by intros ->.
Qed.

Lemma distinct_app_l (l1 l2 : list string) :
  distinct (l1 ++ l2) = true -> distinct l1 = true.
Proof.
  induction l1 as [|x l1 IH]; simpl; [done|].
  rewrite !andb_true_iff, !negb_true_iff, existsb_app, orb_false_iff.
  intros [[H _] H']. auto.
Qed.

(** A login that goes through, step by step. *)
Lemma authenticate_succeeds (credentials : gmap string pyval) (e p : string)
    (w : World) (r : ref) (u : AbstractUser) :
  credentials !! "email" = Some (VStr e) ->
  credentials !! "password" = Some (VStr p) ->
  find_index (email_is (lower e)) (objects w) = Some r ->
  objects w !! r = Some u ->
  verifies env p u = true ->
  (rehash_due env p u = true -> validate_password env p u = []) ->
  writable w = true ->
  pending w = [] ->
  distinct (map value (refresh_tokens w ++ [issued_row env w u])) = true ->
  exists w',
    authenticate env credentials w
    = (Ok (access_token_of env w (user_id u), refresh_token_of env w (user_id u), r), w')
    /\ refresh_tokens w' = refresh_tokens w ++ [issued_row env w u]
    /\ pending w' = []
    /\ log w' = log w
    /\ objects w' = if rehash_due env p u then <[r := rehashed env p u]> (objects w)
                    else objects w.
Proof.
  intros He Hp Hfind Hobj Hver Hre Hwr Hpend Hpk.
  unfold authenticate, bind. rewrite (_get_info_run _ _ _ _ He Hp), Hfind.
  set (w1 := add_call _ w).
  rewrite (check_password_run env r p w1 u Hobj). subst w1.
  assert (Hpk1 : primary_key_free w = true).
  { unfold primary_key_free. rewrite Hpend, app_nil_r.
    rewrite map_app in Hpk. by apply distinct_app_l in Hpk. }
  assert (Hlt : (r < length (objects w))%nat) by (eapply lookup_lt_Some; eauto).
  unfold issued_row, refresh_token_of, access_token_of in *.
  unfold primary_key_free in Hpk1.
  destruct w as [os rts pend wr st lg wl rd cl sh]; simpl in *. subst wr pend.
  destruct (rehash_due env p u) eqn:Hrd.
  - rewrite (Hre eq_refl). unfold after_commit_attempt, primary_key_free. simpl.
    rewrite Hpk1. simpl. unfold deref. simpl.
    rewrite list_lookup_insert_eq by done.
    unfold _create_token_pair, utcnow, val, gets, bind, session_add, modify, commit, ret,
      primary_key_free. simpl. rewrite !app_nil_r.
    change (60 * 24 * 30) with 43200. change (60 * 24 * 3) with 4320. rewrite Hpk.
    eexists. split; [reflexivity|]. simpl. by rewrite !app_nil_r.
  - rewrite Hver. simpl. unfold deref. simpl. rewrite Hobj.
    unfold _create_token_pair, utcnow, val, gets, bind, session_add, modify, commit, ret,
      primary_key_free. simpl.
    change (60 * 24 * 30) with 43200. change (60 * 24 * 3) with 4320. rewrite Hpk.
    eexists. split; [reflexivity|]. simpl. done.
Qed.


(** C2, as the code has it.  Credentials whose lower-cased email is the
    stored email of a user, with a password that verifies against the
    user's hash (and that the validators accept, should the hash be due for
    recomputation), on a session with nothing pending whose database takes
    the commit and holds no row with the value of the new refresh token:
    [authenticate] returns the access token, the refresh token and the
    user; the access token encodes a payload whose [user_id] is the text of
    the user's id; and the table of refresh tokens is the one before plus
    exactly one row, with the returned refresh token as value and the
    user's id. *)
Theorem login_issues_and_stores_one_token
    (credentials : gmap string pyval) (e p : string) (w : World) (r : ref) (u : AbstractUser) :
  credentials !! "email" = Some (VStr e) ->
  credentials !! "password" = Some (VStr p) ->
  find_index (email_is (lower e)) (objects w) = Some r ->
  objects w !! r = Some u ->
  verifies env p u = true ->
  (rehash_due env p u = true -> validate_password env p u = []) ->
  writable w = true ->
  pending w = [] ->
  distinct (map value (refresh_tokens w ++ [issued_row env w u])) = true ->
  exists access_token refresh_token payload w',
    authenticate env credentials w = (Ok (access_token, refresh_token, r), w')
    /\ access_token = jwt_encode env payload (APP_JWT_SECRET_KEY env) APP_JWT_ALGORITHM
    /\ payload !! "user_id" = Some (VStr (uuid_str env (user_id u)))
    /\ refresh_tokens w'
       = refresh_tokens w ++ [{| value := refresh_token; token_user_id := user_id u |}]
    /\ pending w' = [].
Proof.
  intros He Hp Hfind Hobj Hver Hre Hwr Hpend Hpk.
  destruct (authenticate_succeeds _ _ _ _ _ _ He Hp Hfind Hobj Hver Hre Hwr Hpend Hpk)
    as (w' & Hrun & Hrows & Hpending & _).
  eexists _, _, _, w'. split; [exact Hrun|].
  split; [reflexivity|]. split; [reflexivity|]. by split.
Qed.


End Authentication.

(** *** The flags of an account and the login *)

Section FlagBlind.

Context (env : Env).

Ltac frame := unfold same_world_but_flags in *; simpl in *; intuition congruence.

Lemma alike_ret {A} (Q : A -> A -> Prop) (a a' : A) :
  Q a a' -> alike Q (ret a) (ret a').
Proof. intros H w w' HR. unfold ret. simpl. by split. Qed.

Lemma alike_raise {A} (Q : A -> A -> Prop) (e : exn) :
  alike Q (raise e) (raise e).
Proof. intros w w' HR. unfold raise. simpl. by split. Qed.

Lemma alike_bind {A B} (QA : A -> A -> Prop) (QB : B -> B -> Prop)
    (m m' : M World A) (k k' : A -> M World B) :
  alike QA m m' ->
  (forall a a', QA a a' -> alike QB (k a) (k' a')) ->
  alike QB (bind m k) (bind m' k').
Proof.
  intros Hm Hk w w' HR. unfold bind. specialize (Hm w w' HR).
  destruct (m w) as [[a|e] v], (m' w') as [[a'|e'] v']; try done.
  destruct Hm as [Ha Hv]. by apply Hk.
Qed.

Lemma alike_try_pass (m m' : M World unit) :
  alike eq m m' -> alike eq (try_pass m) (try_pass m').
Proof.
  intros Hm w w' HR. unfold try_pass. specialize (Hm w w' HR).
  destruct (m w) as [[a|e] v], (m' w') as [[a'|e'] v']; try done; by destruct Hm.
Qed.

Lemma lookup_alike (l l' : list AbstractUser) (r : ref) :
  Forall2 same_but_flags l l' ->
  match l !! r, l' !! r with
  | Some u, Some u' => same_but_flags u u'
  | None, None => True
  | _, _ => False
  end.
Proof.
  intros H. revert r. induction H as [|u u' l l' Hu _ IH]; intros [|r]; simpl; auto.
  apply IH.
Qed.

Lemma alike_deref (r : ref) : alike same_but_flags (deref r) (deref r).
Proof.
  intros w w' HR. unfold deref.
  pose proof (lookup_alike _ _ r (proj1 HR)) as Hr.
  destruct (objects w !! r) as [u|], (objects w' !! r) as [u'|]; simpl; by try split.
Qed.

Lemma alike_update (r : ref) (f f' : AbstractUser -> AbstractUser) :
  (forall u u', same_but_flags u u' -> same_but_flags (f u) (f' u')) ->
  alike eq (update r f) (update r f').
Proof.
  intros Hf w w' HR. unfold update, modify. split; [done|].
  destruct HR as [Hobjs HR]. split; [|frame]. simpl.
  pose proof (lookup_alike _ _ r Hobjs) as Hr.
  destruct (objects w !! r) as [u|], (objects w' !! r) as [u'|]; try done.
  apply Forall2_insert; auto.
Qed.

Lemma find_index_alike (p p' : AbstractUser -> bool) (l l' : list AbstractUser) :
  (forall u u', same_but_flags u u' -> p u = p' u') ->
  Forall2 same_but_flags l l' ->
  find_index p l = find_index p' l'.
Proof.
  intros Hp. induction 1 as [|u u' l l' Hu _ IH]; simpl; [done|].
  rewrite (Hp _ _ Hu), IH. done.
Qed.

Lemma alike_query_first (p p' : AbstractUser -> bool) :
  (forall u u', same_but_flags u u' -> p u = p' u') ->
  alike eq (query_first p) (query_first p').
Proof.
  intros Hp w w' HR. unfold query_first.
  rewrite (find_index_alike p p' (objects w) (objects w') Hp) by apply HR.
  split; [done|frame].
Qed.

Lemma hashes_alike (l l' : list AbstractUser) :
  Forall2 same_but_flags l l' -> password_hash <$> l = password_hash <$> l'.
Proof.
  induction 1 as [|u u' l l' Hu _ IH]; [done|].
  rewrite !fmap_cons, IH. f_equal. apply Hu.
Qed.

Lemma reloaded_alike (hashes : list (option string)) (l l' : list AbstractUser) :
  Forall2 same_but_flags l l' ->
  Forall2 same_but_flags (reloaded hashes l) (reloaded hashes l').
Proof.
  intros H. revert hashes.
  induction H as [|u u' l l' Hu Hl IH]; intros hashes; [by destruct hashes|].
  destruct hashes as [|h hashes]; simpl; [by constructor|].
  constructor; [|apply IH]. unfold same_but_flags in *. simpl. tauto.
Qed.

Lemma alike_commit : alike eq commit commit.
Proof.
  intros w w' HR. unfold commit, primary_key_free.
  replace (writable w') with (writable w) by frame.
  replace (refresh_tokens w') with (refresh_tokens w) by frame.
  replace (pending w') with (pending w) by frame.
  destruct HR as (Hobjs & HR).
  destruct (writable w && _); (split; [done|]); unfold same_world_but_flags; simpl.
  - rewrite (hashes_alike _ _ Hobjs). intuition congruence.
  - replace (stored_hashes w') with (stored_hashes w) by intuition congruence.
    split; [by apply reloaded_alike|]. intuition congruence.
Qed.

Lemma alike_modify (f : World -> World) :
  (forall w w', same_world_but_flags w w' -> same_world_but_flags (f w) (f w')) ->
  alike eq (modify f) (modify f).
Proof. intros Hf w w' HR. split; [done|]. by apply Hf. Qed.

Lemma alike_session_add (t : RefreshToken) : alike eq (session_add t) (session_add t).
Proof. apply alike_modify. intros w w' HR. frame. Qed.

Lemma alike_logger_info (msg : string) : alike eq (logger_info msg) (logger_info msg).
Proof. apply alike_modify. intros w w' HR. frame. Qed.

Lemma alike_create_token_pair (uid : UUID) :
  alike eq (_create_token_pair env uid) (_create_token_pair env uid).
Proof.
  intros w w' HR. rewrite !_create_token_pair_run.
  unfold access_token_of, refresh_token_of.
  replace (wall w') with (wall w) by frame.
  replace (reads w') with (reads w) by frame.
  replace (settings w') with (settings w) by frame.
  split; [done|frame].
Qed.

Lemma alike_set_password (self : ref) (raw : string) :
  flag_blind env ->
  alike eq (set_password env self raw) (set_password env self raw).
Proof.
  intros Hblind. unfold set_password.
  eapply alike_bind; [apply alike_deref|]. intros u u' Hu.
  rewrite (Hblind raw u u' Hu).
  destruct (validate_password env raw u') as [|m ms].
  - apply alike_update. clear. intros u u' Hu. unfold same_but_flags in *. simpl. tauto.
  - eapply alike_bind; [apply alike_logger_info|]. intros _ _ _. apply alike_raise.
Qed.

Lemma alike_check_password (self : ref) (raw : option string) :
  flag_blind env ->
  alike eq (check_password env self raw) (check_password env self raw).
Proof.
  intros Hblind. unfold check_password.
  eapply alike_bind; [apply alike_deref|]. intros u u' Hu.
  replace (password_hash u') with (password_hash u) by apply Hu.
  unfold hashers_check_password.
  destruct raw as [raw|]; [|by apply alike_ret].
  destruct (password_hash u) as [encoded|]; [|by apply alike_ret].
  destruct (hasher_verify env raw encoded && hasher_must_update env encoded);
    [|by apply alike_ret].
  eapply alike_bind; [|intros _ _ _; by apply alike_ret].
  eapply alike_bind; [by apply alike_set_password|]. intros _ _ _.
  apply alike_try_pass, alike_commit.
Qed.

Lemma alike_get_info (credentials : gmap string pyval) (requires_password : bool) :
  alike eq (_get_info credentials requires_password) (_get_info credentials requires_password).
Proof.
  unfold _get_info, dpath_value_str, dpath_value_str_default.
  eapply (alike_bind eq).
  { destruct (credentials !! "email") as [[]|]; by (apply alike_ret || apply alike_raise). }
  intros e _ <-. eapply (alike_bind eq).
  { destruct requires_password.
    - destruct (credentials !! "password") as [[]|];
        try apply alike_raise.
      eapply (alike_bind eq); [by apply alike_ret|]. intros ? _ <-. by apply alike_ret.
    - destruct (credentials !! "password") as [[]|]; by (apply alike_ret || apply alike_raise). }
  intros p _ <-. eapply (alike_bind eq).
  { apply alike_query_first. intros u u' Hu. unfold email_is.
    by replace (email u') with (email u) by apply Hu. }
  intros r _ <-. by apply alike_ret.
Qed.

(** From two worlds that differ at most in the flags of their users, a
    login ends alike. *)
Lemma alike_authenticate (credentials : gmap string pyval) :
  flag_blind env ->
  alike eq (authenticate env credentials) (authenticate env credentials).
Proof.
  intros Hblind. unfold authenticate.
  eapply (alike_bind eq); [apply alike_get_info|].
  intros [[e p] [r|]] _ <-; [|apply alike_raise].
  eapply (alike_bind eq); [by apply alike_check_password|].
  intros ok _ <-. destruct ok; simpl; [|apply alike_raise].
  eapply alike_bind; [apply alike_deref|]. intros u u' Hu.
  replace (user_id u') with (user_id u) by apply Hu.
  eapply (alike_bind eq); [apply alike_create_token_pair|].
  intros [a t] _ <-.
  eapply (alike_bind eq); [apply alike_session_add|]. intros _ _ _.
  eapply (alike_bind eq); [apply alike_commit|]. intros _ _ _.
  by apply alike_ret.
Qed.

(** C10, as the code has it.  [authenticate] does not look at
    [is_confirmed] or [is_blocked].  From two worlds that differ at most in those flags of their users, and
    with validators that do not read them (the configured ones compare the
    password with names and address only), a login returns the same and
    leaves two such worlds again.  And whatever the two flags of a user,
    blocked or unconfirmed included: credentials whose lower-cased email
    finds the user and whose password verifies are answered with a token
    pair, under the conditions of any successful login (the validators
    accept the password should the hash be recomputed, and the database
    takes the new row). *)
Theorem login_ignores_account_flags (credentials : gmap string pyval) (w w' : World) :
  flag_blind env ->
  same_world_but_flags w w' ->
  fst (authenticate env credentials w') = fst (authenticate env credentials w)
  /\ same_world_but_flags (snd (authenticate env credentials w))
       (snd (authenticate env credentials w'))
  /\ (forall e p r u,
        credentials !! "email" = Some (VStr e) ->
        credentials !! "password" = Some (VStr p) ->
        find_index (email_is (lower e)) (objects w) = Some r ->
        objects w !! r = Some u ->
        verifies env p u = true ->
        (rehash_due env p u = true -> validate_password env p u = []) ->
        writable w = true ->
        pending w = [] ->
        distinct (map value (refresh_tokens w ++ [issued_row env w u])) = true ->
        exists w1,
          authenticate env credentials w
          = (Ok (access_token_of env w (user_id u), refresh_token_of env w (user_id u), r),
             w1)).
Proof.
  intros Hblind HR.
  pose proof (alike_authenticate credentials Hblind w w' HR) as H.
  split; [|split].
  - destruct (authenticate env credentials w) as [[a|x] v],
      (authenticate env credentials w') as [[a'|x'] v']; simpl in *; try done;
      by destruct H as [-> _].
  - destruct (authenticate env credentials w) as [[a|x] v],
      (authenticate env credentials w') as [[a'|x'] v']; simpl in *; try done;
      by destruct H.
  - intros e p r u He Hp Hfind Hobj Hver Hre Hwr Hpend Hpk.
    destruct (authenticate_succeeds env _ _ _ _ _ _ He Hp Hfind Hobj Hver Hre Hwr Hpend Hpk)
      as (w1 & Hrun & _).
    by exists w1.
Qed.

End FlagBlind.


Lemma login_issues_and_stores_one_token_witness :
  exists access_token refresh_token payload w',
    authenticate stub (credentials_of "Admin@Example.com" "correct horse") world0
    = (Ok (access_token, refresh_token, 0%nat), w')
    /\ access_token = jwt_encode stub payload (APP_JWT_SECRET_KEY stub) APP_JWT_ALGORITHM
    /\ payload !! "user_id" = Some (VStr (uuid_str stub (user_id admin)))
    /\ refresh_tokens w'
       = refresh_tokens world0 ++ [{| value := refresh_token; token_user_id := user_id admin |}]
    /\ pending w' = [].
Proof.
  apply (login_issues_and_stores_one_token stub
           (credentials_of "Admin@Example.com" "correct horse")
           "Admin@Example.com" "correct horse" world0 0%nat admin);
    reflexivity.
Defined.

(** C2, as stated, fails: a confirmed user stored with capitals in the
    address presents exactly that address and the password of the stored
    hash, and is refused, for the lookup is by the lower-cased address. *)
Lemma capitalised_address_is_refused :
  objects world0 !! 3%nat = Some bob
  /\ is_confirmed bob = true
  /\ email bob = Some "Bob@Example.com"
  /\ verifies stub "correct horse" bob = true
  /\ authenticate stub (credentials_of "Bob@Example.com" "correct horse") world0
     = (Raise invalid_credentials, add_call (EvQuery false) world0).
Proof. repeat split. Qed.

Lemma login_ignores_account_flags_witness :
  fst (authenticate stub (credentials_of "op@example.com" "battery staple") world0_cleared)
  = fst (authenticate stub (credentials_of "op@example.com" "battery staple") world0)
  /\ same_world_but_flags
       (snd (authenticate stub (credentials_of "op@example.com" "battery staple") world0))
       (snd (authenticate stub (credentials_of "op@example.com" "battery staple")
               world0_cleared))
  /\ (forall e p r u,
        credentials_of "op@example.com" "battery staple" !! "email" = Some (VStr e) ->
        credentials_of "op@example.com" "battery staple" !! "password" = Some (VStr p) ->
        find_index (email_is (lower e)) (objects world0) = Some r ->
        objects world0 !! r = Some u ->
        verifies stub p u = true ->
        (rehash_due stub p u = true -> validate_password stub p u = []) ->
        writable world0 = true ->
        pending world0 = [] ->
        distinct (map value (refresh_tokens world0 ++ [issued_row stub world0 u])) = true ->
        exists w1,
          authenticate stub (credentials_of "op@example.com" "battery staple") world0
          = (Ok (access_token_of stub world0 (user_id u),
                 refresh_token_of stub world0 (user_id u), r), w1)).
Proof.
  apply (login_ignores_account_flags stub
           (credentials_of "op@example.com" "battery staple") world0 world0_cleared).
  - intros raw u u' _. reflexivity.
  - repeat split. repeat constructor.
Defined.

(** C10, as stated, fails: a stored user whose email and password are the
    ones supplied is not always answered with a token pair.  Carol's hash
    is in an old format and of a password that the validators refuse, so her
    login ends in [InvalidParamValueError]; Bob is stored with capitals in
    his address and is looked up by the lower-cased one, so his login is
    refused.  Both are confirmed and not blocked. *)
Lemma matching_credentials_are_not_enough :
  (objects world0 !! 4%nat = Some carol
   /\ email carol = Some "carol@example.com"
   /\ verifies stub "hunter2" carol = true
   /\ is_confirmed carol = true /\ is_blocked carol = false
   /\ fst (authenticate stub (credentials_of "carol@example.com" "hunter2") world0)
      = Raise (InvalidParamValueError "Invalid password value" [too_short]))
  /\ (objects world0 !! 3%nat = Some bob
      /\ email bob = Some "Bob@Example.com"
      /\ verifies stub "correct horse" bob = true
      /\ is_confirmed bob = true /\ is_blocked bob = false
      /\ fst (authenticate stub (credentials_of "Bob@Example.com" "correct horse") world0)
         = Raise invalid_credentials).
Proof. repeat split. Qed.

(** The blocked, unconfirmed operator of [world0] logs in. *)
Example blocked_unconfirmed_operator_logs_in :
  is_blocked operator = true /\ is_confirmed operator = false
  /\ fst (authenticate stub (credentials_of "op@example.com" "battery staple") world0)
     = Ok ("HS256.2.259200000000.secret", "HS256.2.2592001000000.secret", 1%nat).
Proof. repeat split. Qed.

(** *** Lazy attributes of a request *)

Section Middleware.

Context (env : Env).

Lemma private_name_descriptor (s : stage) :
  _private_name (descriptor env s) = private_name s.
Proof. by destruct s. Qed.

(** A cached attribute is returned as it is: the factory does not run and
    the request does not change. *)
Lemma get_cached (d : _LazyHttpRequestDescriptor) (r : Request) (v : obj) :
  __dict__ r !! _private_name d = Some v -> __get__ d r = (Ok v, r).
Proof.
  intros H. unfold __get__, getitem.
  rewrite bool_decide_eq_true_2 by (rewrite H; by eexists).
  by rewrite H.
Qed.

(** An attribute that is not cached is what its factory makes, and is
    cached when the factory returns; nothing is cached when it raises. *)
Lemma get_uncached (d : _LazyHttpRequestDescriptor) (r : Request) :
  __dict__ r !! _private_name d = None ->
  __get__ d r
  = match __factory__ d r with
    | (Ok v, r') => (Ok v, set_dict (<[_private_name d := v]>) r')
    | (Raise e, r') => (Raise e, r')
    end.
Proof.
  intros H. unfold __get__.
  rewrite bool_decide_eq_false_2 by (rewrite H; by intros [? ?]).
  unfold bind, modify, getitem.
  destruct (__factory__ d r) as [[v|e] r']; [|done].
  simpl. by rewrite lookup_insert_eq.
Qed.

Lemma get_then_cached (d : _LazyHttpRequestDescriptor) (r r' : Request) (v : obj) :
  __get__ d r = (Ok v, r') -> __dict__ r' !! _private_name d = Some v.
Proof.
  destruct (__dict__ r !! _private_name d) as [v0|] eqn:Hc.
  - rewrite (get_cached _ _ _ Hc). by intros [= <- <-].
  - rewrite (get_uncached _ _ Hc).
    destruct (__factory__ d r) as [[v1|e] r1]; [|done].
    intros [= <- <-]. simpl. by rewrite lookup_insert_eq.
Qed.

Lemma keeps_cache_refl (r : Request) : keeps_cache r r.
Proof. by intros s. Qed.

Lemma keeps_cache_trans (r1 r2 r3 : Request) :
  keeps_cache r1 r2 -> keeps_cache r2 r3 -> keeps_cache r1 r3.
Proof. intros H12 H23 s Hs. auto. Qed.

Lemma keeps_cache_insert (k : string) (v : obj) (r r' : Request) :
  __dict__ r' = <[k := v]> (__dict__ r) -> keeps_cache r r'.
Proof.
  intros H s. unfold cached. rewrite H, lookup_insert_is_Some.
  destruct (decide (k = private_name s)); auto.
Qed.

Lemma keeps_cache_same (r r' : Request) :
  __dict__ r' = __dict__ r -> keeps_cache r r'.
Proof. intros H s. unfold cached. by rewrite H. Qed.

(** The first stage: the cached token or else the header; it asks no
    collaborator. *)
Lemma get_token_run (r : Request) :
  __get__ app_user_token_descr r
  = (Ok (inbound_token r),
     match __dict__ r !! "_app_user_token" with
     | Some _ => r
     | None => set_dict (<["_app_user_token" := inbound_token r]>) r
     end).
Proof.
  unfold inbound_token.
  destruct (__dict__ r !! "_app_user_token") as [v|] eqn:Hc.
  - by apply get_cached.
  - rewrite get_uncached by done. simpl. unfold _get_user_token_from_headers.
    by destruct (META r !! "HTTP_X_LAMB_AUTH_TOKEN").
Qed.

Lemma _get_user_token_payload_run (r : Request) :
  _get_user_token_payload env r = (converted (library_verdict env r), after_decode env r).
Proof.
  unfold _get_user_token_payload, bind. rewrite get_token_run.
  fold (after_token r).
  assert (Hs : lamb_db_session (after_token r) = lamb_db_session r).
  { unfold after_token. by destruct (__dict__ r !! "_app_user_token"). }
  assert (Hm : META (after_token r) = META r).
  { unfold after_token. by destruct (__dict__ r !! "_app_user_token"). }
  unfold on_session, decode, after_decode, library_verdict. rewrite Hs, Hm.
  destruct (inbound_token r) as [[| s | | |]| |]; simpl;
    try reflexivity.
  destruct (jwt_decode env s (APP_JWT_SECRET_KEY env) [APP_JWT_ALGORITHM] _) as [payload|e];
    [reflexivity|]. by destruct e.
Qed.

Lemma after_token_session (r : Request) :
  lamb_db_session (after_token r) = lamb_db_session r.
Proof. unfold after_token. by destruct (__dict__ r !! "_app_user_token"). Qed.

Lemma keeps_cache_after_token (r : Request) : keeps_cache r (after_token r).
Proof.
  unfold after_token. destruct (__dict__ r !! "_app_user_token").
  - apply keeps_cache_refl.
  - by eapply keeps_cache_insert.
Qed.

Lemma keeps_cache_after_decode (r : Request) : keeps_cache r (after_decode env r).
Proof.
  eapply keeps_cache_trans; [apply keeps_cache_after_token|]. by apply keeps_cache_same.
Qed.

Lemma at_most_one_call_extend (total good : Request -> nat) (s : stage)
    (r r1 r' : Request) (ok1 ok : bool) :
  at_most_one_call total good s r ok1 r1 ->
  (ok = true -> ok1 = true) ->
  total r' = total r1 -> good r' = good r1 -> keeps_cache r1 r' ->
  at_most_one_call total good s r ok r'.
Proof.
  intros [[Ht Hg]|(Hn & Ht & [[Hg Hc]|[Hg Hok]])] Himp Ht' Hg' Hk.
  - left. split; congruence.
  - right. split; [done|]. split; [congruence|]. left. split; [congruence|auto].
  - right. split; [done|]. split; [congruence|]. right. split; [congruence|].
    destruct ok; [|done]. rewrite Himp in Hok; done.
Qed.

Lemma pure_dict_get (o : obj) (k : string) (r : Request) :
  snd (dict_get o k r) = r.
Proof. by destruct o. Qed.

Lemma pure_transform_uuid (o : obj) (r : Request) :
  snd (transform_uuid env o r) = r.
Proof.
  destruct o as [[| s | | |]| |]; try done. simpl.
  by destruct (uuid_parse env s).
Qed.

(** The second stage asks the token library at most once, and never the
    storage. *)
Lemma get_payload_bound (r : Request) (x : Result obj) (r' : Request) :
  __get__ (app_user_token_payload_descr env) r = (x, r') ->
  at_most_one_call decodes good_decodes app_user_token_payload r (is_ok x) r'
  /\ lookups r' = lookups r /\ good_lookups r' = good_lookups r
  /\ keeps_cache r r'.
Proof.
  destruct (__dict__ r !! "_app_user_token_payload") as [v|] eqn:Hc.
  - rewrite (get_cached (app_user_token_payload_descr env) r v Hc).
    intros [= <- <-]. repeat split; [by left|apply keeps_cache_refl].
  - rewrite (get_uncached (app_user_token_payload_descr env) r Hc). simpl.
    rewrite _get_user_token_payload_run.
    assert (Hn : ~ cached app_user_token_payload r).
    { unfold cached. simpl. rewrite Hc. by intros [? ?]. }
    pose proof (keeps_cache_after_decode r) as Hk.
    unfold decodes, good_decodes, lookups, good_lookups.
    destruct (library_verdict env r) as [payload|e] eqn:Hv.
    + simpl. intros [= <- <-]. unfold after_decode. rewrite Hv. simpl.
      repeat split.
      * right. split; [done|]. split; [done|]. left. split; [done|].
        unfold cached. simpl. rewrite lookup_insert_eq. by eexists.
      * eapply keeps_cache_trans; [exact Hk|]. by eapply keeps_cache_insert.
    + assert (Hx : exists e', converted (Refused e) = Raise e') by (destruct e; by eexists).
      destruct Hx as [e' ->]. intros [= <- <-]. unfold after_decode at 1 2 3 4. rewrite Hv.
      simpl. repeat split; [|exact Hk].
      right. split; [done|]. split; [done|]. by right.
Qed.

(** The third stage reads the second and asks nobody itself. *)
Lemma get_user_id_bound (r : Request) (x : Result obj) (r' : Request) :
  __get__ (app_user_id_descr env) r = (x, r') ->
  at_most_one_call decodes good_decodes app_user_token_payload r (is_ok x) r'
  /\ lookups r' = lookups r /\ good_lookups r' = good_lookups r
  /\ keeps_cache r r'.
Proof.
  destruct (__dict__ r !! "_app_user_id") as [v|] eqn:Hc.
  - rewrite (get_cached (app_user_id_descr env) r v Hc).
    intros [= <- <-]. repeat split; [by left|apply keeps_cache_refl].
  - rewrite (get_uncached (app_user_id_descr env) r Hc). simpl.
    unfold _get_user_id, bind.
    destruct (__get__ (app_user_token_payload_descr env) r) as [x1 r1] eqn:H1.
    destruct (get_payload_bound _ _ _ H1) as (Hd & Hl & Hgl & Hk).
    destruct x1 as [payload|e1]; simpl in Hd.
    + pose proof (pure_dict_get payload "user_id" r1) as Hp1.
      destruct (dict_get payload "user_id" r1) as [[v|e2] r2]; simpl in Hp1; subst r2.
      * pose proof (pure_transform_uuid v r1) as Hp2.
        destruct (transform_uuid env v r1) as [[u|e3] r3]; simpl in Hp2; subst r3.
        -- simpl. intros [= <- <-]. repeat split; try done.
           ++ eapply at_most_one_call_extend; eauto. by eapply keeps_cache_insert.
           ++ eapply keeps_cache_trans; [exact Hk|]. by eapply keeps_cache_insert.
        -- intros [= <- <-]. repeat split; try done.
           eapply at_most_one_call_extend; eauto. apply keeps_cache_refl.
      * intros [= <- <-]. repeat split; try done.
        eapply at_most_one_call_extend; eauto. apply keeps_cache_refl.
    + intros [= <- <-]. by repeat split.
Qed.

(** The fourth stage reads the third and asks the storage at most once. *)
Lemma get_user_bound (r : Request) (x : Result obj) (r' : Request) :
  __get__ (app_user_descr env) r = (x, r') -> bounded_access r (is_ok x) r'.
Proof.
  destruct (__dict__ r !! "_app_user") as [v|] eqn:Hc.
  - rewrite (get_cached (app_user_descr env) r v Hc).
    intros [= <- <-]. repeat split; [by left|by left|apply keeps_cache_refl].
  - rewrite (get_uncached (app_user_descr env) r Hc). simpl.
    assert (Hn : ~ cached app_user r).
    { unfold cached. simpl. rewrite Hc. by intros [? ?]. }
    unfold _get_user, bind.
    destruct (__get__ (app_user_id_descr env) r) as [x1 r1] eqn:H1.
    destruct (get_user_id_bound _ _ _ H1) as (Hd & Hl & Hgl & Hk).
    destruct x1 as [v|e1]; simpl in Hd;
      [|intros [= <- <-]; repeat split; [done|by left|done]].
    pose proof (pure_transform_uuid v r1) as Hp.
    destruct (transform_uuid env v r1) as [[uid|e2] r2]; simpl in Hp; subst r2.
    2:{ intros [= <- <-]. repeat split; [|by left|done].
        eapply at_most_one_call_extend; eauto. apply keeps_cache_refl. }
    unfold on_session, query_first.
    destruct (find_index _ (objects (lamb_db_session r1))) as [found|]; simpl.
    + intros [= <- <-]. repeat split.
      * eapply at_most_one_call_extend; eauto. by eapply keeps_cache_insert.
      * right. split; [done|]. unfold lookups, good_lookups in *. simpl.
        split; [by rewrite Hl|]. left. split; [by rewrite Hgl|].
        unfold cached. simpl. rewrite lookup_insert_eq. by eexists.
      * eapply keeps_cache_trans; [exact Hk|]. by eapply keeps_cache_insert.
    + intros [= <- <-]. repeat split.
      * eapply at_most_one_call_extend; eauto. by apply keeps_cache_same.
      * right. split; [done|]. unfold lookups, good_lookups in *. simpl.
        split; [by rewrite Hl|]. right. split; [by rewrite Hgl|done].
      * eapply keeps_cache_trans; [exact Hk|]. by apply keeps_cache_same.
Qed.

Lemma get_bound (s : stage) (r : Request) (x : Result obj) (r' : Request) :
  __get__ (descriptor env s) r = (x, r') -> bounded_access r (is_ok x) r'.
Proof.
  destruct s; simpl.
  - rewrite get_token_run. intros [= <- <-]. fold (after_token r).
    unfold bounded_access, at_most_one_call, decodes, good_decodes, lookups, good_lookups.
    rewrite after_token_session.
    repeat split; [by left|by left|apply keeps_cache_after_token].
  - intros H. destruct (get_payload_bound _ _ _ H) as (Hd & Hl & Hgl & Hk).
    repeat split; [done|by left|done].
  - intros H. destruct (get_user_id_bound _ _ _ H) as (Hd & Hl & Hgl & Hk).
    repeat split; [done|by left|done].
  - apply get_user_bound.
Qed.

Lemma perform_bound (a : access) (r : Request) (x : Result unit) (r' : Request) :
  perform env a r = (x, r') -> bounded_access r (is_ok x) r'.
Proof.
  destruct a as [s|s v]; simpl.
  - unfold bind. destruct (__get__ (descriptor env s) r) as [x1 r1] eqn:H1.
    pose proof (get_bound _ _ _ _ H1) as Hb.
    destruct x1; intros [= <- <-]; exact Hb.
  - unfold __set__, modify. intros [= <- <-].
    repeat split; [by left|by left|by eapply keeps_cache_insert].
Qed.

(** The invariant of a count of answered calls under accesses that each
    go on after a failure. *)
Lemma once_step (total good : Request -> nat) (s : stage) (r r' : Request) (ok : bool) :
  once good s r -> at_most_one_call total good s r ok r' -> keeps_cache r r' ->
  once good s r'.
Proof.
  intros [H0|[H1 Hc]] [[Ht Hg]|(Hn & Ht & [[Hg Hc']|[Hg Hok]])] Hk; unfold once;
    try (by left; congruence); try done.
  - right. split; [congruence|done].
  - right. split; [congruence|auto].
Qed.

(** The invariant of a count of all calls, along accesses that succeed;
    an access that fails leaves the count at one at most. *)
Lemma once_total_step (total good : Request -> nat) (s : stage) (r r' : Request) (ok : bool) :
  once total s r -> at_most_one_call total good s r ok r' -> keeps_cache r r' ->
  (total r' <= 1)%nat /\ (ok = true -> once total s r').
Proof.
  intros [H0|[H1 Hc]] [[Ht Hg]|(Hn & Ht & [[Hg Hc']|[Hg Hok]])] Hk; unfold once;
    try done.
  - split; [lia|]. intros _. left. congruence.
  - split; [lia|]. intros _. right. split; [congruence|done].
  - split; [lia|]. by intros ->.
  - split; [lia|]. intros _. right. split; [congruence|auto].
Qed.

Lemma serve_once (l : list access) (r : Request) :
  once good_decodes app_user_token_payload r -> once good_lookups app_user r ->
  once good_decodes app_user_token_payload (serve env l r)
  /\ once good_lookups app_user (serve env l r).
Proof.
  revert r. induction l as [|a l IH]; intros r Hd Hq; simpl; [done|].
  destruct (perform env a r) as [x r'] eqn:Hp. simpl.
  destruct (perform_bound _ _ _ _ Hp) as (Bd & Bq & Hk).
  apply IH; eapply once_step; eauto.
Qed.

Lemma handle_once (l : list access) (r : Request) :
  once decodes app_user_token_payload r -> once lookups app_user r ->
  (decodes r <= 1)%nat -> (lookups r <= 1)%nat ->
  (decodes (snd (handle env l r)) <= 1)%nat /\ (lookups (snd (handle env l r)) <= 1)%nat.
Proof.
  revert r. induction l as [|a l IH]; intros r Hd Hq Hd1 Hq1; simpl; [done|].
  unfold handle in *. simpl. unfold bind.
  destruct (perform env a r) as [x r'] eqn:Hp.
  destruct (perform_bound _ _ _ _ Hp) as (Bd & Bq & Hk).
  destruct (once_total_step _ _ _ _ _ _ Hd Bd Hk) as [Hd' Hdi].
  destruct (once_total_step _ _ _ _ _ _ Hq Bq Hk) as [Hq' Hqi].
  destruct x as [[]|e]; simpl in *; [|done].
  apply IH; auto.
Qed.

Lemma serve_token_only (l : list access) (r : Request) :
  forallb reads_token_only l = true ->
  lamb_db_session (serve env l r) = lamb_db_session r.
Proof.
  revert r. induction l as [|a l IH]; intros r; simpl; [done|].
  rewrite andb_true_iff. intros [Ha Hl]. rewrite (IH _ Hl).
  destruct a as [[]|s v]; try done; simpl.
  unfold bind. rewrite get_token_run. simpl. fold (after_token r).
  apply after_token_session.
Qed.

(** A computation that leaves the slot [k] of the instance dictionary as
    it found it. *)
Lemma keeps_slot_bind {A B} (k : string) (m : M Request A) (f : A -> M Request B) :
  (forall r, __dict__ (snd (m r)) !! k = __dict__ r !! k) ->
  (forall a r, __dict__ (snd (f a r)) !! k = __dict__ r !! k) ->
  forall r, __dict__ (snd (bind m f r)) !! k = __dict__ r !! k.
Proof.
  intros Hm Hf r. unfold bind. specialize (Hm r).
  destruct (m r) as [[a|e] r1]; simpl in *; [|done].
  by rewrite Hf.
Qed.

Lemma keeps_slot_get (k : string) (d : _LazyHttpRequestDescriptor) :
  k <> _private_name d ->
  (forall r, __dict__ (snd (__factory__ d r)) !! k = __dict__ r !! k) ->
  forall r, __dict__ (snd (__get__ d r)) !! k = __dict__ r !! k.
Proof.
  intros Hk Hf r.
  destruct (__dict__ r !! _private_name d) as [v|] eqn:Hc.
  - by rewrite (get_cached _ _ _ Hc).
  - rewrite (get_uncached _ _ Hc). specialize (Hf r).
    destruct (__factory__ d r) as [[v|e] r1]; simpl in *; [|done].
    by rewrite lookup_insert_ne.
Qed.

Lemma keeps_slot_token (k : string) :
  k <> "_app_user_token" ->
  forall r, __dict__ (snd (__get__ app_user_token_descr r)) !! k = __dict__ r !! k.
Proof.
  intros Hk. apply keeps_slot_get; [done|]. intros r. simpl.
  unfold _get_user_token_from_headers. by destruct (META r !! "HTTP_X_LAMB_AUTH_TOKEN").
Qed.

Lemma keeps_slot_payload_factory (k : string) :
  k <> "_app_user_token" ->
  forall r, __dict__ (snd (_get_user_token_payload env r)) !! k = __dict__ r !! k.
Proof.
  intros Hk r. rewrite _get_user_token_payload_run. simpl.
  unfold after_token. destruct (__dict__ r !! "_app_user_token"); [done|].
  simpl. by rewrite lookup_insert_ne.
Qed.

Lemma keeps_slot_payload (k : string) :
  k <> "_app_user_token" -> k <> "_app_user_token_payload" ->
  forall r, __dict__ (snd (__get__ (app_user_token_payload_descr env) r)) !! k
            = __dict__ r !! k.
Proof.
  intros Hk1 Hk2. apply keeps_slot_get; [done|]. by apply keeps_slot_payload_factory.
Qed.

Lemma keeps_slot_id_factory (k : string) :
  k <> "_app_user_token" -> k <> "_app_user_token_payload" ->
  forall r, __dict__ (snd (_get_user_id env r)) !! k = __dict__ r !! k.
Proof.
  intros Hk1 Hk2. unfold _get_user_id.
  apply keeps_slot_bind; [by apply keeps_slot_payload|]. intros payload.
  apply keeps_slot_bind; [intros r; by rewrite pure_dict_get|]. intros v.
  apply keeps_slot_bind; [intros r; by rewrite pure_transform_uuid|]. by intros u r.
Qed.

Lemma keeps_slot_id (k : string) :
  k <> "_app_user_token" -> k <> "_app_user_token_payload" -> k <> "_app_user_id" ->
  forall r, __dict__ (snd (__get__ (app_user_id_descr env) r)) !! k = __dict__ r !! k.
Proof.
  intros Hk1 Hk2 Hk3. apply keeps_slot_get; [done|]. by apply keeps_slot_id_factory.
Qed.

Lemma keeps_slot_user_factory (k : string) :
  k <> "_app_user_token" -> k <> "_app_user_token_payload" -> k <> "_app_user_id" ->
  forall r, __dict__ (snd (_get_user env r)) !! k = __dict__ r !! k.
Proof.
  intros Hk1 Hk2 Hk3. unfold _get_user.
  apply keeps_slot_bind; [by apply keeps_slot_id|]. intros v.
  apply keeps_slot_bind; [intros r; by rewrite pure_transform_uuid|]. intros uid.
  apply keeps_slot_bind.
  - intros r. unfold on_session. by destruct (query_first _ _).
  - intros [user|] r; reflexivity.
Qed.

(** The factory of a stage does not touch the slot of the stage. *)
Lemma factory_keeps_own_slot (s : stage) (r : Request) :
  __dict__ (snd (__factory__ (descriptor env s) r)) !! private_name s
  = __dict__ r !! private_name s.
Proof.
  destruct s; simpl.
  - unfold _get_user_token_from_headers. by destruct (META r !! "HTTP_X_LAMB_AUTH_TOKEN").
  - by apply keeps_slot_payload_factory.
  - by apply keeps_slot_id_factory.
  - by apply keeps_slot_user_factory.
Qed.

(** A read that raises found the slot empty and leaves it empty. *)
Lemma failed_get_caches_nothing (s : stage) (r : Request) (e : exn) (r' : Request) :
  __get__ (descriptor env s) r = (Raise e, r') ->
  __dict__ r' !! private_name s = None.
Proof.
  pose proof (factory_keeps_own_slot s r) as Hf. rewrite <- private_name_descriptor in *.
  destruct (__dict__ r !! _private_name (descriptor env s)) as [v|] eqn:Hc.
  - by rewrite (get_cached _ _ _ Hc).
  - rewrite (get_uncached _ _ Hc).
    destruct (__factory__ (descriptor env s) r) as [[v|e'] r1]; [done|].
    intros [= <- <-]. exact Hf.
Qed.

(** C5, as the code has it.  Whatever token a request carries,
    verification ends by what the token library answers: the claims are the
    payload; [ExpiredSignatureError] becomes [AuthCredentialsExpired];
    [DecodeError], [InvalidSignatureError] and [InvalidAlgorithmError]
    become [AuthCredentialsInvalid]; any other exception of the library is
    not converted and propagates as it is. *)
Theorem token_verification_outcomes (r : Request) :
  fst (_get_user_token_payload env r)
  = match library_verdict env r with
    | Claims payload => Ok (ODict payload)
    | Refused ExpiredSignatureError => Raise AuthCredentialsExpired
    | Refused DecodeError => Raise (AuthCredentialsInvalid None)
    | Refused InvalidSignatureError => Raise (AuthCredentialsInvalid None)
    | Refused InvalidAlgorithmError => Raise (AuthCredentialsInvalid None)
    | Refused e => Raise (JwtError e)
    end.
Proof.
  rewrite _get_user_token_payload_run. simpl.
  destruct (library_verdict env r) as [payload|e]; [done|]. by destruct e.
Qed.

(** C6, as the code has it.  On a request as the middleware hands it on
    (no collaborator asked yet), and for a lazy attribute with whatever
    factory:
    - a read of a cached attribute returns the cached value and changes
      nothing, so the factory does not run;
    - a read that returns has its value cached, and every later read
      returns that same value and changes nothing;
    - an attribute that was set is read back as set, without its factory;
    - however many accesses are made, and whether or not they go on after
      a failure, at most one decode is answered with claims and at most one
      lookup finds a user;
    - in a handler that the first exception ends, at most one decode and
      one lookup are made at all;
    - when only the first stage is read, nothing is decoded;
    - a read whose factory raises caches nothing: it ends as the factory
      ended, with the same exception and in the same state;
    - so a read of one of the four stages that raised leaves the slot of
      the stage empty, and the next read of the stage runs its factory
      again. *)
Theorem lazy_identity_is_cached_once_computed (r : Request) :
  calls (lamb_db_session r) = [] ->
  (forall d r1 v,
     __dict__ r1 !! _private_name d = Some v -> __get__ d r1 = (Ok v, r1))
  /\ (forall d r1 v r2, __get__ d r1 = (Ok v, r2) -> __get__ d r2 = (Ok v, r2))
  /\ (forall d r1 v,
        __get__ d (snd (__set__ d v r1)) = (Ok v, snd (__set__ d v r1)))
  /\ (forall l, (good_decodes (serve env l r) <= 1)%nat
                /\ (good_lookups (serve env l r) <= 1)%nat)
  /\ (forall l, (decodes (snd (handle env l r)) <= 1)%nat
                /\ (lookups (snd (handle env l r)) <= 1)%nat)
  /\ (forall l, forallb reads_token_only l = true -> decodes (serve env l r) = O)
  /\ (forall d r1 e r2,
        __dict__ r1 !! _private_name d = None ->
        __factory__ d r1 = (Raise e, r2) ->
        __get__ d r1 = (Raise e, r2))
  /\ (forall s r1 e r2,
        __get__ (descriptor env s) r1 = (Raise e, r2) ->
        __dict__ r2 !! private_name s = None
        /\ __get__ (descriptor env s) r2
           = match __factory__ (descriptor env s) r2 with
             | (Ok v, r3) => (Ok v, set_dict (<[private_name s := v]>) r3)
             | (Raise e', r3) => (Raise e', r3)
             end).
Proof.
  intros Hcalls.
  assert (H0 : forall p, count p (calls (lamb_db_session r)) = O) by (by rewrite Hcalls).
  split; [apply get_cached|].
  split; [intros d r1 v r2 H; apply get_cached; by apply (get_then_cached _ _ _ _ H)|].
  split; [intros d r1 v; apply get_cached; simpl; by rewrite lookup_insert_eq|].
  split.
  { intros l. split.
    - destruct (serve_once l r) as [[Hd|[Hd _]] _]; try (by left; apply H0); lia.
    - destruct (serve_once l r) as [_ [Hq|[Hq _]]]; try (by left; apply H0); lia. }
  split.
  { intros l. split.
    - apply handle_once; try (by left; apply H0);
        unfold decodes, lookups; rewrite H0; lia.
    - apply handle_once; try (by left; apply H0);
        unfold decodes, lookups; rewrite H0; lia. }
  split.
  { intros l Hl. unfold decodes. rewrite (serve_token_only _ _ Hl). apply H0. }
  split.
  { intros d r1 e r2 Hc Hf. by rewrite (get_uncached _ _ Hc), Hf. }
  intros s r1 e r2 H.
  pose proof (failed_get_caches_nothing _ _ _ _ H) as Hnone.
  split; [exact Hnone|].
  rewrite <- private_name_descriptor in *. by apply get_uncached.
Qed.

End Middleware.

(** The four stages on a request that carries the token of the
    administrator, and the two refusals that are converted. *)
Example stages_of_a_good_request :
  fst (__get__ app_user_token_descr (request_with (Some "token-of-1") world0))
  = Ok (OVal (VStr "token-of-1"))
  /\ fst (__get__ (app_user_id_descr stub) (request_with (Some "token-of-1") world0))
     = Ok (OVal (VUuid 1%N))
  /\ fst (__get__ (app_user_descr stub) (request_with (Some "token-of-1") world0))
     = Ok (OUser 0%nat)
  /\ fst (__get__ app_user_token_descr (request_with None world0)) = Ok (OVal VNone)
  /\ fst (_get_user_token_payload stub (request_with (Some "expired") world0))
     = Raise AuthCredentialsExpired
  /\ fst (_get_user_token_payload stub (request_with (Some "forged") world0))
     = Raise (AuthCredentialsInvalid None)
  /\ fst (_get_user_token_payload stub (request_with None world0))
     = Raise (AuthCredentialsInvalid None).
Proof. repeat split. Qed.

(** C5, as stated, fails: the library refuses a token whose signature is
    good and whose [nbf] lies ahead with an exception of a class that
    neither [except] clause names, and verification ends with that
    exception, a third kind of failure. *)
Lemma not_yet_valid_token_is_a_third_failure :
  library_verdict stub (request_with (Some "not-yet-valid") world0)
  = Refused ImmatureSignatureError
  /\ fst (_get_user_token_payload stub (request_with (Some "not-yet-valid") world0))
     = Raise (JwtError ImmatureSignatureError).
Proof. by split. Qed.

Lemma lazy_identity_is_cached_once_computed_witness :
  (forall d r1 v,
     __dict__ r1 !! _private_name d = Some v -> __get__ d r1 = (Ok v, r1))
  /\ (forall d r1 v r2, __get__ d r1 = (Ok v, r2) -> __get__ d r2 = (Ok v, r2))
  /\ (forall d r1 v,
        __get__ d (snd (__set__ d v r1)) = (Ok v, snd (__set__ d v r1)))
  /\ (forall l, (good_decodes (serve stub l (request_with (Some "token-of-1") world0)) <= 1)%nat
                /\ (good_lookups (serve stub l (request_with (Some "token-of-1") world0)) <= 1)%nat)
  /\ (forall l, (decodes (snd (handle stub l (request_with (Some "token-of-1") world0))) <= 1)%nat
                /\ (lookups (snd (handle stub l (request_with (Some "token-of-1") world0))) <= 1)%nat)
  /\ (forall l, forallb reads_token_only l = true ->
                decodes (serve stub l (request_with (Some "token-of-1") world0)) = O)
  /\ (forall d r1 e r2,
        __dict__ r1 !! _private_name d = None ->
        __factory__ d r1 = (Raise e, r2) ->
        __get__ d r1 = (Raise e, r2))
  /\ (forall s r1 e r2,
        __get__ (descriptor stub s) r1 = (Raise e, r2) ->
        __dict__ r2 !! private_name s = None
        /\ __get__ (descriptor stub s) r2
           = match __factory__ (descriptor stub s) r2 with
             | (Ok v, r3) => (Ok v, set_dict (<[private_name s := v]>) r3)
             | (Raise e', r3) => (Raise e', r3)
             end).
Proof.
  apply (lazy_identity_is_cached_once_computed stub (request_with (Some "token-of-1") world0));
    reflexivity.
Defined.

(** C6, as stated, fails: three guarded reads of [app_user] on a request
    with a forged token decode the token three times, and three guarded
    reads on a request whose token names a user that is gone look the user
    up three times, for a factory that raises leaves nothing cached. *)
Lemma failed_stage_is_computed_again :
  decodes (serve stub [Get app_user; Get app_user; Get app_user]
             (request_with (Some "forged") world0)) = 3%nat
  /\ lookups (serve stub [Get app_user; Get app_user; Get app_user]
                (request_with (Some "token-of-9") world0)) = 3%nat.
Proof. by split. Qed.

(** ** Further properties of the code *)

(** *** Passwords, continued *)

Section MorePasswords.

Context (env : Env).

(** X1.  A password that was set is the password that checks: after
    [set_password] accepted [raw], and with a hasher that verifies what it
    made and makes hashes of the preferred format, [check_password] returns
    [True] for [raw] and [False] for whatever the new hash does not verify,
    and neither check changes anything. *)
Theorem set_password_then_check_password
    (self : ref) (raw : string) (w : World) (u : AbstractUser) :
  objects w !! self = Some u ->
  validate_password env raw u = [] ->
  hasher_verify env raw (make_password env raw) = true ->
  hasher_must_update env (make_password env raw) = false ->
  set_password env self raw w = (Ok tt, with_new_hash env self raw u w)
  /\ check_password env self (Some raw) (with_new_hash env self raw u w)
     = (Ok true, with_new_hash env self raw u w)
  /\ (forall other,
        hasher_verify env other (make_password env raw) = false ->
        check_password env self (Some other) (with_new_hash env self raw u w)
        = (Ok false, with_new_hash env self raw u w)).
Proof.
  intros H Hok Hv Hm.
  assert (Hlt : (self < length (objects w))%nat) by (eapply lookup_lt_Some; eauto).
  assert (H' : objects (with_new_hash env self raw u w) !! self = Some (rehashed env raw u)).
  { simpl. by apply list_lookup_insert_eq. }
  split; [|split].
  - rewrite (set_password_run env _ _ _ _ H). by rewrite Hok.
  - rewrite (check_password_run env _ _ _ _ H').
    unfold rehash_due, verifies. simpl. by rewrite Hv, Hm.
  - intros other Ho. rewrite (check_password_run env _ _ _ _ H').
    unfold rehash_due, verifies. simpl. by rewrite Ho.
Qed.

(** X2.  [change_password] guards the change by the old password only when
    there is a hash: with a stored hash that the old password does not
    verify against, it raises [AuthCredentialsInvalid] and nothing at all
    changes, whatever the new password; with no stored hash it sets the new
    password without looking at the old one. *)
Theorem change_password_old_password_guard
    (self : ref) (password_new : string) (w : World) (u : AbstractUser) :
  objects w !! self = Some u ->
  (forall password_old,
     is_Some (password_hash u) ->
     verifies env password_old u = false ->
     change_password env self (Some password_old) password_new w
     = (Raise (AuthCredentialsInvalid (Some "Invalid old password value")), w))
  /\ (forall password_old,
        password_hash u = None ->
        change_password env self password_old password_new w
        = set_password env self password_new w).
Proof.
  intros H. split.
  - intros old [encoded He] Hv. unfold change_password, bind.
    rewrite (deref_Some _ _ _ H), He.
    rewrite (check_password_run env _ _ _ _ H).
    rewrite (rehash_due_verifies env _ _ Hv), Hv. reflexivity.
  - intros old Hn. unfold change_password, bind.
    by rewrite (deref_Some _ _ _ H), Hn.
Qed.

(** X3.  A password the validators no longer accept cannot be changed once
    its hash is outdated: the check of the (right) old password recomputes
    the hash with the old password first, the validators refuse it, and
    [change_password] raises [InvalidParamValueError] with their messages,
    whatever the new password; the hash stays and one record is logged. *)
Theorem change_password_blocked_by_old_password
    (self : ref) (password_old password_new encoded m : string) (ms : list string)
    (w : World) (u : AbstractUser) :
  objects w !! self = Some u ->
  password_hash u = Some encoded ->
  hasher_verify env password_old encoded = true ->
  hasher_must_update env encoded = true ->
  validate_password env password_old u = m :: ms ->
  change_password env self (Some password_old) password_new w
  = (Raise (InvalidParamValueError "Invalid password value" (m :: ms)),
     add_log (INFO, "User password is invalid. Details: " +:+ repr_list (m :: ms)) w).
Proof.
  intros H He Hv Hm Hval. unfold change_password, bind.
  rewrite (deref_Some _ _ _ H), He.
  rewrite (check_password_run env _ _ _ _ H).
  unfold rehash_due. by rewrite He, Hv, Hm, Hval.
Qed.

End MorePasswords.

Lemma set_password_then_check_password_witness :
  set_password stub 1%nat "battery staple" world0
  = (Ok tt, with_new_hash stub 1%nat "battery staple" operator world0)
  /\ check_password stub 1%nat (Some "battery staple")
       (with_new_hash stub 1%nat "battery staple" operator world0)
     = (Ok true, with_new_hash stub 1%nat "battery staple" operator world0)
  /\ (forall other,
        hasher_verify stub other (make_password stub "battery staple") = false ->
        check_password stub 1%nat (Some other)
          (with_new_hash stub 1%nat "battery staple" operator world0)
        = (Ok false, with_new_hash stub 1%nat "battery staple" operator world0)).
Proof.
  apply (set_password_then_check_password stub 1%nat "battery staple" world0 operator);
    reflexivity.
Defined.

Lemma change_password_old_password_guard_witness :
  (forall password_old,
     is_Some (password_hash admin) ->
     verifies stub password_old admin = false ->
     change_password stub 0%nat (Some password_old) "a new password" world0
     = (Raise (AuthCredentialsInvalid (Some "Invalid old password value")), world0))
  /\ (forall password_old,
        password_hash admin = None ->
        change_password stub 0%nat password_old "a new password" world0
        = set_password stub 0%nat "a new password" world0).
Proof.
  apply (change_password_old_password_guard stub 0%nat "a new password" world0 admin).
  reflexivity.
Defined.

Lemma change_password_blocked_by_old_password_witness :
  change_password stub 4%nat (Some "hunter2") "a much longer password" world0
  = (Raise (InvalidParamValueError "Invalid password value" [too_short]),
     add_log (INFO, "User password is invalid. Details: " +:+ repr_list [too_short]) world0).
Proof.
  apply (change_password_blocked_by_old_password stub 4%nat "hunter2"
           "a much longer password" "md5$hunter2" too_short [] world0 carol);
    reflexivity.
Defined.

(** *** Authentication, continued *)

Section MoreAuthentication.

Context (env : Env).

(** X4.  A login with the right password can fail on the password itself:
    when the stored hash is outdated and the validators refuse the
    password, [authenticate] raises [InvalidParamValueError] with their
    messages; no token is issued or stored, the hash stays, and one record
    is logged. *)
Theorem login_refused_by_validators
    (credentials : gmap string pyval) (e p encoded m : string) (ms : list string)
    (w : World) (r : ref) (u : AbstractUser) :
  credentials !! "email" = Some (VStr e) ->
  credentials !! "password" = Some (VStr p) ->
  find_index (email_is (lower e)) (objects w) = Some r ->
  objects w !! r = Some u ->
  password_hash u = Some encoded ->
  hasher_verify env p encoded = true ->
  hasher_must_update env encoded = true ->
  validate_password env p u = m :: ms ->
  authenticate env credentials w
  = (Raise (InvalidParamValueError "Invalid password value" (m :: ms)),
     add_log (INFO, "User password is invalid. Details: " +:+ repr_list (m :: ms))
       (add_call (EvQuery true) w)).
Proof.
  intros He Hp Hfind Hobj Hh Hv Hm Hval.
  unfold authenticate, bind. rewrite (_get_info_run _ _ _ _ He Hp), Hfind.
  set (w1 := add_call _ w).
  rewrite (check_password_run env r p w1 u Hobj).
  unfold rehash_due. by rewrite Hh, Hv, Hm, Hval.
Qed.


(** X6.  Credentials that lack the email or the password are refused
    before the storage is asked: [authenticate] raises one of the two
    parameter errors of [dpath_value] and the world is exactly as
    before. *)
Theorem malformed_credentials_reach_no_storage
    (credentials : gmap string pyval) (w : World) :
  credentials !! "email" = None \/ credentials !! "password" = None ->
  exists x,
    authenticate env credentials w = (Raise x, w)
    /\ ((exists msg, x = InvalidBodyStructureError msg)
        \/ (exists msg, x = InvalidParamTypeError msg)).
Proof.
  unfold authenticate, _get_info, bind, dpath_value_str.
  intros [-> | Hp].
  - eexists. split; [reflexivity|]. eauto.
  - rewrite Hp.
    destruct (credentials !! "email") as [[| e | | |]|]; simpl;
      eexists; (split; [reflexivity|]); eauto.
Qed.

End MoreAuthentication.

Lemma login_refused_by_validators_witness :
  authenticate stub (credentials_of "carol@example.com" "hunter2") world0
  = (Raise (InvalidParamValueError "Invalid password value" [too_short]),
     add_log (INFO, "User password is invalid. Details: " +:+ repr_list [too_short])
       (add_call (EvQuery true) world0)).
Proof.
  apply (login_refused_by_validators stub (credentials_of "carol@example.com" "hunter2")
           "carol@example.com" "hunter2" "md5$hunter2" too_short [] world0 4%nat carol);
    reflexivity.
Defined.


Lemma malformed_credentials_reach_no_storage_witness :
  exists x,
    authenticate stub (<["email" := VStr "admin@example.com"]> ∅) world0 = (Raise x, world0)
    /\ ((exists msg, x = InvalidBodyStructureError msg)
        \/ (exists msg, x = InvalidParamTypeError msg)).
Proof.
  apply (malformed_credentials_reach_no_storage stub
           (<["email" := VStr "admin@example.com"]> ∅) world0).
  right. reflexivity.
Defined.

(** *** What a login never does *)

Section Conservative.

Context (env : Env).

Lemma same_but_hash_refl (u : AbstractUser) : same_but_hash u u.
Proof. by repeat split. Qed.

Lemma same_but_hash_trans (u1 u2 u3 : AbstractUser) :
  same_but_hash u1 u2 -> same_but_hash u2 u3 -> same_but_hash u1 u3.
Proof. unfold same_but_hash. intuition congruence. Qed.

Lemma later_world_refl (w : World) : later_world w w.
Proof.
  split.
  - exists []. by rewrite app_nil_r.
  - apply Forall2_same_length_lookup. split; [done|].
    intros i u u' H1 H2. rewrite H1 in H2. injection H2 as <-. apply same_but_hash_refl.
Qed.

Lemma later_world_trans (w1 w2 w3 : World) :
  later_world w1 w2 -> later_world w2 w3 -> later_world w1 w3.
Proof.
  intros [[a1 H1] F1] [[a2 H2] F2]. split.
  - exists (a1 ++ a2). by rewrite H2, H1, app_assoc.
  - eapply Forall2_trans; [|exact F1|exact F2]. apply same_but_hash_trans.
Qed.

Lemma conservative_ret {A} (a : A) : conservative (ret a).
Proof. intros w. apply later_world_refl. Qed.

Lemma conservative_raise {A} (e : exn) : conservative (raise (A:=A) e).
Proof. intros w. apply later_world_refl. Qed.

Lemma conservative_bind {A B} (m : M World A) (k : A -> M World B) :
  conservative m -> (forall a, conservative (k a)) -> conservative (bind m k).
Proof.
  intros Hm Hk w. unfold bind. specialize (Hm w).
  destruct (m w) as [[a|e] w1]; simpl in *; [|done].
  eapply later_world_trans; [exact Hm|apply Hk].
Qed.

Lemma conservative_try_pass (m : M World unit) :
  conservative m -> conservative (try_pass m).
Proof.
  intros Hm w. unfold try_pass. specialize (Hm w).
  by destruct (m w) as [[a|e] w1].
Qed.

(** A change that touches neither the users nor the stored tokens. *)
Lemma conservative_frame {A} (m : M World A) :
  (forall w, objects (snd (m w)) = objects w
             /\ refresh_tokens (snd (m w)) = refresh_tokens w) ->
  conservative m.
Proof.
  intros H w. destruct (H w) as [Ho Ht]. split.
  - exists []. by rewrite Ht, app_nil_r.
  - rewrite Ho. apply later_world_refl.
Qed.

Lemma reloaded_same_but_hash (hashes : list (option string)) (l : list AbstractUser) :
  Forall2 same_but_hash l (reloaded hashes l).
Proof.
  revert hashes. induction l as [|u l IH]; intros hashes; [by destruct hashes; constructor|].
  destruct hashes as [|h hashes]; simpl.
  - constructor; [apply same_but_hash_refl|]. specialize (IH []). by destruct l.
  - constructor; [by repeat split|apply IH].
Qed.

Lemma conservative_commit : conservative commit.
Proof.
  intros w. unfold commit.
  destruct (writable w && primary_key_free w); simpl.
  - split; [by exists (pending w)|apply (proj2 (later_world_refl w))].
  - split; [exists []; by rewrite app_nil_r|apply reloaded_same_but_hash].
Qed.

Lemma conservative_deref (r : ref) : conservative (deref r).
Proof. apply conservative_frame. intros w. unfold deref. by destruct (objects w !! r). Qed.

Lemma conservative_set_password (self : ref) (raw : string) :
  conservative (set_password env self raw).
Proof.
  unfold set_password. apply conservative_bind; [apply conservative_deref|]. intros u.
  destruct (validate_password env raw u) as [|m ms].
  - intros w. unfold update, modify. simpl. split.
    + exists []. by rewrite app_nil_r.
    + cbn [snd set_objects objects].
      destruct (objects w !! self) as [u0|] eqn:Hu; [|apply (proj2 (later_world_refl w))].
      apply Forall2_same_length_lookup. split; [by rewrite length_insert|].
      intros i x y Hx Hy. destruct (decide (i = self)) as [->|Hne].
      * rewrite list_lookup_insert_eq in Hy by (eapply lookup_lt_Some; eauto).
        pose proof (eq_trans (eq_sym Hu) Hx) as E. injection E as <-.
        injection Hy as <-. by repeat split.
      * rewrite list_lookup_insert_ne in Hy by done.
        pose proof (eq_trans (eq_sym Hx) Hy) as E. injection E as <-.
        apply same_but_hash_refl.
  - apply conservative_bind; [by apply conservative_frame|].
    intros _. apply conservative_raise.
Qed.

Lemma conservative_check_password (self : ref) (raw : option string) :
  conservative (check_password env self raw).
Proof.
  unfold check_password. apply conservative_bind; [apply conservative_deref|]. intros u.
  unfold hashers_check_password.
  destruct raw as [raw|]; [|apply conservative_ret].
  destruct (password_hash u) as [encoded|]; [|apply conservative_ret].
  destruct (hasher_verify env raw encoded && hasher_must_update env encoded);
    [|apply conservative_ret].
  apply conservative_bind; [|intros _; apply conservative_ret].
  apply conservative_bind; [apply conservative_set_password|]. intros _.
  apply conservative_try_pass, conservative_commit.
Qed.

Lemma conservative_get_info (credentials : gmap string pyval) (requires_password : bool) :
  conservative (_get_info credentials requires_password).
Proof. apply conservative_frame. intros w.
  unfold _get_info, bind, dpath_value_str, dpath_value_str_default.
  destruct (credentials !! "email") as [[]|]; try done.
  destruct requires_password; destruct (credentials !! "password") as [[]|]; done.
Qed.

(** X7.  Whatever the credentials and however the call ends,
    [authenticate] removes and alters no stored refresh token (the rows
    that were in the table are still there, in place, possibly followed by
    new ones), and it changes no attribute of any user other than a
    password hash. *)
Theorem login_keeps_tokens_and_accounts (credentials : gmap string pyval) (w : World) :
  (exists added,
     refresh_tokens (snd (authenticate env credentials w)) = refresh_tokens w ++ added)
  /\ Forall2 same_but_hash (objects w) (objects (snd (authenticate env credentials w))).
Proof.
  revert w. change (conservative (authenticate env credentials)).
  unfold authenticate.
  apply conservative_bind; [apply conservative_get_info|].
  intros [[e p] [r|]]; [|apply conservative_raise].
  apply conservative_bind; [apply conservative_check_password|].
  intros ok. destruct ok; simpl; [|apply conservative_raise].
  apply conservative_bind; [apply conservative_deref|]. intros u.
  apply conservative_bind; [by apply conservative_frame|]. intros [a t].
  apply conservative_bind; [by apply conservative_frame|]. intros _.
  apply conservative_bind; [apply conservative_commit|]. intros _.
  apply conservative_ret.
Qed.

End Conservative.

Section RefusedCommit.

Context (env : Env).

Lemma reloaded_lookup (hashes : list (option string)) (os : list AbstractUser)
    (r : ref) (u : AbstractUser) :
  os !! r = Some u -> exists h, reloaded hashes os !! r = Some (with_hash h u).
Proof.
  revert hashes r. induction os as [|x os IH]; intros hashes r H; [done|].
  destruct hashes as [|h hashes].
  - exists (password_hash u).
    assert (with_hash (password_hash u) u = u) as -> by (by destruct u). exact H.
  - destruct r as [|r]; simpl in *.
    + injection H as ->. by exists h.
    + by apply IH.
Qed.

(** X8.  A login whose row the database does not take fails and stores
    nothing: for a user found by email whose password verifies, when the
    database refuses the commit or the table already has a row with the
    value of the new refresh token (the value is the primary key),
    [authenticate] raises the error of the commit and the table of refresh
    tokens is as before. *)
Theorem login_fails_when_commit_is_refused
    (credentials : gmap string pyval) (e p : string) (w : World) (r : ref) (u : AbstractUser) :
  credentials !! "email" = Some (VStr e) ->
  credentials !! "password" = Some (VStr p) ->
  find_index (email_is (lower e)) (objects w) = Some r ->
  objects w !! r = Some u ->
  verifies env p u = true ->
  (rehash_due env p u = true -> validate_password env p u = []) ->
  pending w = [] ->
  writable w && distinct (map value (refresh_tokens w ++ [issued_row env w u])) = false ->
  fst (authenticate env credentials w) = Raise DatabaseError
  /\ refresh_tokens (snd (authenticate env credentials w)) = refresh_tokens w.
Proof.
  intros He Hp Hfind Hobj Hver Hre Hpend Hbad.
  unfold authenticate, bind. rewrite (_get_info_run _ _ _ _ He Hp), Hfind.
  set (w1 := add_call _ w).
  rewrite (check_password_run env r p w1 u Hobj). subst w1.
  assert (Hlt : (r < length (objects w))%nat) by (eapply lookup_lt_Some; eauto).
  unfold issued_row, refresh_token_of, access_token_of in *.
  destruct w as [os rts pend wr st lg wl rd cl sh]; simpl in *. subst pend.
  destruct (rehash_due env p u) eqn:Hrd.
  - rewrite (Hre eq_refl). unfold after_commit_attempt, primary_key_free. simpl.
    rewrite app_nil_r.
    destruct (wr && distinct (map value rts)) eqn:Hfirst; simpl; unfold deref; simpl.
    + rewrite list_lookup_insert_eq by done.
      unfold _create_token_pair, utcnow, val, gets, bind, session_add, modify, commit, ret,
        primary_key_free; simpl; rewrite ?app_nil_r.
      change (60 * 24 * 30) with 43200. change (60 * 24 * 3) with 4320.
      rewrite Hbad. simpl. by rewrite ?app_nil_r.
    + destruct (reloaded_lookup sh (<[r := rehashed env p u]> os) r (rehashed env p u))
        as [h Hh]; [by apply list_lookup_insert_eq|].
      rewrite Hh.
      unfold _create_token_pair, utcnow, val, gets, bind, session_add, modify, commit, ret,
        primary_key_free; simpl; rewrite ?app_nil_r.
      change (60 * 24 * 30) with 43200. change (60 * 24 * 3) with 4320.
      by rewrite Hbad.
  - rewrite Hver. simpl. unfold deref. simpl. rewrite Hobj.
    unfold _create_token_pair, utcnow, val, gets, bind, session_add, modify, commit, ret,
      primary_key_free. simpl.
    change (60 * 24 * 30) with 43200. change (60 * 24 * 3) with 4320. by rewrite Hbad.
Qed.

End RefusedCommit.

Lemma login_fails_when_commit_is_refused_witness :
  fst (authenticate stub (credentials_of "admin@example.com" "correct horse") world_readonly)
  = Raise DatabaseError
  /\ refresh_tokens
       (snd (authenticate stub (credentials_of "admin@example.com" "correct horse")
               world_readonly))
     = refresh_tokens world_readonly.
Proof.
  apply (login_fails_when_commit_is_refused stub
           (credentials_of "admin@example.com" "correct horse")
           "admin@example.com" "correct horse" world_readonly 0%nat admin);
    reflexivity.
Defined.

Section MoreMiddleware.

Context (env : Env).

(** X9.  Assigning one lazy attribute never invalidates another: what is
    cached for a different attribute is still what a read of it returns
    after the assignment, and that read changes nothing.  So an identity
    computed from one token stays on the request when the token is
    replaced. *)
Theorem assignment_keeps_other_attributes
    (s s' : stage) (v v' : obj) (r : Request) :
  s' <> s ->
  __dict__ r !! private_name s' = Some v' ->
  __get__ (descriptor env s') (snd (__set__ (descriptor env s) v r))
  = (Ok v', snd (__set__ (descriptor env s) v r)).
Proof.
  intros Hne Hc. apply get_cached.
  rewrite !private_name_descriptor. simpl.
  rewrite lookup_insert_ne; [done|]. by destruct s, s'.
Qed.

(** The request after the four stages were computed, one after the
    other. *)
Lemma get_user_id_fresh (r : Request) (payload : gmap string pyval) :
  (forall s, __dict__ r !! private_name s = None) ->
  library_verdict env r = Claims payload ->
  __get__ (app_user_id_descr env) r
  = match transform_uuid env (OVal (default VNone (payload !! "user_id")))
            (set_dict (<["_app_user_token_payload" := ODict payload]>) (after_decode env r)) with
    | (Ok uid, r') => (Ok (OVal (VUuid uid)), set_dict (<["_app_user_id" := OVal (VUuid uid)]>) r')
    | (Raise e, r') => (Raise e, r')
    end.
Proof.
  intros Hfresh Hv.
  rewrite get_uncached by apply (Hfresh app_user_id).
  simpl. unfold _get_user_id, bind.
  rewrite get_uncached by (simpl; apply (Hfresh app_user_token_payload)).
  simpl. rewrite _get_user_token_payload_run, Hv. simpl.
  destruct (default VNone (payload !! "user_id")) as [| s | | |u]; try reflexivity.
  simpl. destruct (uuid_parse env s); reflexivity.
Qed.

Lemma get_user_of_id (r : Request) (payload : gmap string pyval) :
  (forall s, __dict__ r !! private_name s = None) ->
  library_verdict env r = Claims payload ->
  __get__ (app_user_descr env) r
  = (let (x, r1) := __get__ (app_user_id_descr env) r in
     match x with
     | Ok v =>
         let (y, r2) :=
           (uid <- transform_uuid env v ;;
            user <- on_session (query_first (fun u => N.eqb (user_id u) uid)) ;;
            match user with
            | None => raise (AuthCredentialsInvalid None)
            | Some user => ret (OUser user)
            end) r1 in
         match y with
         | Ok u => (Ok u, set_dict (<["_app_user" := u]>) r2)
         | Raise e => (Raise e, r2)
         end
     | Raise e => (Raise e, r1)
     end).
Proof.
  intros Hfresh Hv.
  rewrite (get_uncached (app_user_descr env)) by apply (Hfresh app_user).
  change (__factory__ (app_user_descr env)) with (_get_user env).
  unfold _get_user. unfold bind at 1.
  destruct (__get__ (app_user_id_descr env) r) as [[v|e] r1]; reflexivity.
Qed.

Lemma get_user_resolved
    (r : Request) (payload : gmap string pyval) (s : string) (uid : UUID) (a : ref) :
  (forall st, __dict__ r !! private_name st = None) ->
  library_verdict env r = Claims payload ->
  payload !! "user_id" = Some (VStr s) ->
  uuid_parse env s = Some uid ->
  find_index (fun u => N.eqb (user_id u) uid) (objects (lamb_db_session r)) = Some a ->
  __get__ (app_user_descr env) r = (Ok (OUser a), resolved r payload uid a).
Proof.
  intros Hfresh Hv Hp Hu Hf.
  rewrite (get_user_of_id r payload Hfresh Hv), (get_user_id_fresh r payload Hfresh Hv).
  rewrite Hp. simpl. rewrite Hu. simpl.
  unfold bind, on_session, query_first, ret, raise. simpl. rewrite Hf. simpl.
  pose proof (Hfresh app_user_token) as Ht. simpl in Ht.
  unfold after_token. rewrite Ht. simpl.
  by rewrite Hv.
Qed.

(** X10.  A token that the library verifies resolves to its user in one
    pass: on a request with nothing cached, when the claims carry under
    [user_id] a string that parses to the id of a stored user, a read of
    [request.app_user] returns that user, caches all four stages, and has
    asked the token library once and the storage once. *)
Theorem verified_token_resolves_its_user
    (r : Request) (payload : gmap string pyval) (s : string) (uid : UUID) (a : ref) :
  (forall st, __dict__ r !! private_name st = None) ->
  library_verdict env r = Claims payload ->
  payload !! "user_id" = Some (VStr s) ->
  uuid_parse env s = Some uid ->
  find_index (fun u => N.eqb (user_id u) uid) (objects (lamb_db_session r)) = Some a ->
  fst (__get__ (app_user_descr env) r) = Ok (OUser a)
  /\ __dict__ (snd (__get__ (app_user_descr env) r))
     = <["_app_user" := OUser a]>
         (<["_app_user_id" := OVal (VUuid uid)]>
            (<["_app_user_token_payload" := ODict payload]>
               (<["_app_user_token" := inbound_token r]> (__dict__ r))))
  /\ decodes (snd (__get__ (app_user_descr env) r)) = S (decodes r)
  /\ lookups (snd (__get__ (app_user_descr env) r)) = S (lookups r).
Proof.
  intros Hfresh Hv Hp Hu Hf.
  rewrite (get_user_of_id r payload Hfresh Hv), (get_user_id_fresh r payload Hfresh Hv).
  rewrite Hp. simpl. rewrite Hu. simpl.
  unfold bind, on_session, query_first, ret, raise. simpl. rewrite Hf. simpl.
  pose proof (Hfresh app_user_token) as Ht. simpl in Ht.
  unfold after_token. rewrite Ht. simpl.
  rewrite Hv. by repeat split.
Qed.

(** X11.  A verified token that names no stored user fails in two
    different ways.  When the claims have no [user_id], or one that is a
    string and does not parse, the read of [request.app_user] raises
    [InvalidParamValueError], not an authentication error, and the storage
    is not asked.  When the id parses and no user has it, the read raises
    [AuthCredentialsInvalid] after one query; the id stays cached and the
    user does not. *)
Theorem verified_token_without_a_user (r : Request) (payload : gmap string pyval) :
  (forall st, __dict__ r !! private_name st = None) ->
  library_verdict env r = Claims payload ->
  ((payload !! "user_id" = None
    \/ (exists s, payload !! "user_id" = Some (VStr s) /\ uuid_parse env s = None)) ->
   (exists msg details,
      fst (__get__ (app_user_descr env) r) = Raise (InvalidParamValueError msg details))
   /\ lookups (snd (__get__ (app_user_descr env) r)) = lookups r)
  /\ (forall s uid,
        payload !! "user_id" = Some (VStr s) ->
        uuid_parse env s = Some uid ->
        find_index (fun u => N.eqb (user_id u) uid) (objects (lamb_db_session r)) = None ->
        fst (__get__ (app_user_descr env) r) = Raise (AuthCredentialsInvalid None)
        /\ lookups (snd (__get__ (app_user_descr env) r)) = S (lookups r)
        /\ __dict__ (snd (__get__ (app_user_descr env) r)) !! "_app_user_id"
           = Some (OVal (VUuid uid))
        /\ __dict__ (snd (__get__ (app_user_descr env) r)) !! "_app_user" = None).
Proof.
  intros Hfresh Hv.
  rewrite (get_user_of_id r payload Hfresh Hv), (get_user_id_fresh r payload Hfresh Hv).
  pose proof (Hfresh app_user) as Hc. simpl in Hc.
  split.
  - intros [Hp | (s & Hp & Hu)]; rewrite Hp; simpl; rewrite ?Hu; simpl;
      (split; [by eexists _, _|]); reflexivity.
  - intros s uid Hp Hu Hf. rewrite Hp. simpl. rewrite Hu. simpl.
    unfold bind, on_session, query_first, ret, raise. simpl. rewrite Hf. simpl.
    pose proof (Hfresh app_user_token) as Ht. simpl in Ht.
    unfold after_token. rewrite Ht. simpl.
    rewrite Hv. repeat split.
    + by rewrite lookup_insert_eq.
    + rewrite !lookup_insert_ne by done. exact Hc.
Qed.

End MoreMiddleware.

Lemma assignment_keeps_other_attributes_witness :
  __get__ (descriptor stub app_user)
    (snd (__set__ (descriptor stub app_user_token) (OVal (VStr "token-of-9"))
            (set_dict (<["_app_user" := OUser 0%nat]>) (request_with (Some "token-of-1") world0))))
  = (Ok (OUser 0%nat),
     snd (__set__ (descriptor stub app_user_token) (OVal (VStr "token-of-9"))
            (set_dict (<["_app_user" := OUser 0%nat]>) (request_with (Some "token-of-1") world0)))).
Proof.
  apply (assignment_keeps_other_attributes stub app_user_token app_user
           (OVal (VStr "token-of-9")) (OUser 0%nat)
           (set_dict (<["_app_user" := OUser 0%nat]>) (request_with (Some "token-of-1") world0)));
    [discriminate | reflexivity].
Defined.

Lemma verified_token_resolves_its_user_witness :
  fst (__get__ (app_user_descr stub) (request_with (Some "token-of-1") world0))
  = Ok (OUser 0%nat)
  /\ __dict__ (snd (__get__ (app_user_descr stub) (request_with (Some "token-of-1") world0)))
     = <["_app_user" := OUser 0%nat]>
         (<["_app_user_id" := OVal (VUuid 1%N)]>
            (<["_app_user_token_payload" := ODict (<["user_id" := VStr "1"]> ∅)]>
               (<["_app_user_token" := inbound_token (request_with (Some "token-of-1") world0)]>
                  (__dict__ (request_with (Some "token-of-1") world0)))))
  /\ decodes (snd (__get__ (app_user_descr stub) (request_with (Some "token-of-1") world0)))
     = S (decodes (request_with (Some "token-of-1") world0))
  /\ lookups (snd (__get__ (app_user_descr stub) (request_with (Some "token-of-1") world0)))
     = S (lookups (request_with (Some "token-of-1") world0)).
Proof.
  apply (verified_token_resolves_its_user stub (request_with (Some "token-of-1") world0)
           (<["user_id" := VStr "1"]> ∅) "1" 1%N 0%nat);
    [intros []; reflexivity | reflexivity ..].
Defined.

Lemma verified_token_without_a_user_witness :
  ((<["user_id" := VStr "9"]> (∅ : gmap string pyval) !! "user_id" = None
    \/ (exists s, <["user_id" := VStr "9"]> (∅ : gmap string pyval) !! "user_id" = Some (VStr s)
                  /\ uuid_parse stub s = None)) ->
   (exists msg details,
      fst (__get__ (app_user_descr stub) (request_with (Some "token-of-9") world0))
      = Raise (InvalidParamValueError msg details))
   /\ lookups (snd (__get__ (app_user_descr stub) (request_with (Some "token-of-9") world0)))
      = lookups (request_with (Some "token-of-9") world0))
  /\ (forall s uid,
        <["user_id" := VStr "9"]> (∅ : gmap string pyval) !! "user_id" = Some (VStr s) ->
        uuid_parse stub s = Some uid ->
        find_index (fun u => N.eqb (user_id u) uid)
          (objects (lamb_db_session (request_with (Some "token-of-9") world0))) = None ->
        fst (__get__ (app_user_descr stub) (request_with (Some "token-of-9") world0))
        = Raise (AuthCredentialsInvalid None)
        /\ lookups (snd (__get__ (app_user_descr stub) (request_with (Some "token-of-9") world0)))
           = S (lookups (request_with (Some "token-of-9") world0))
        /\ __dict__ (snd (__get__ (app_user_descr stub) (request_with (Some "token-of-9") world0)))
             !! "_app_user_id"
           = Some (OVal (VUuid uid))
        /\ __dict__ (snd (__get__ (app_user_descr stub) (request_with (Some "token-of-9") world0)))
             !! "_app_user" = None).
Proof.
  apply (verified_token_without_a_user stub (request_with (Some "token-of-9") world0)
           (<["user_id" := VStr "9"]> ∅));
    [intros []; reflexivity | reflexivity].
Defined.

Section RegisterView.

Context (env : Env).

Lemma auth_engine_identity_map_lookup (name : string) :
  auth_engine_identity_map !! name
  = if String.eqb name "email" then Some EmailAuthEngine else None.
Proof.
  change auth_engine_identity_map with (<["email" := EmailAuthEngine]> (∅ : gmap string engine)).
  destruct (String.eqb_spec name "email") as [->|Hne].
  - by rewrite lookup_insert_eq.
  - by rewrite lookup_insert_ne.
Qed.

Lemma _get_auth_engine_run {S} (parsed_body : gmap string json) (name : string) (s : S) :
  parsed_body !! "engine" = Some (JStr name) ->
  _get_auth_engine parsed_body s
  = (if String.eqb (lower name) "email" then Ok EmailAuthEngine
     else Raise (InvalidParamValueError ("Unknown auth engine='" +:+ lower name +:+ "'") []),
     s).
Proof.
  intros H. unfold _get_auth_engine, bind, dpath_value_body. rewrite H. simpl.
  rewrite auth_engine_identity_map_lookup. by destruct (String.eqb (lower name) "email").
Qed.

(** X12.  The engine is selected by its lower-cased name, before anything
    else is looked at: a body whose engine is a string that lower-cases to
    [email] is served as if it said [email]; any other string makes
    [AuthRegisterView.post] raise [InvalidParamValueError] and leave the
    request and its session exactly as they were, whatever the
    credentials. *)
Theorem engine_is_selected_by_lowercased_name
    (parsed_body : gmap string json) (name : string) (r : Request) :
  parsed_body !! "engine" = Some (JStr name) ->
  AuthRegisterView_post env parsed_body r
  = if String.eqb (lower name) "email"
    then AuthRegisterView_post env (<["engine" := JStr "email"]> parsed_body) r
    else (Raise (InvalidParamValueError ("Unknown auth engine='" +:+ lower name +:+ "'") []), r).
Proof.
  intros H. unfold AuthRegisterView_post, bind.
  rewrite (_get_auth_engine_run parsed_body name r H).
  rewrite (_get_auth_engine_run (<["engine" := JStr "email"]> parsed_body) "email" r)
    by apply lookup_insert_eq.
  destruct (String.eqb (lower name) "email"); [|reflexivity].
  change (String.eqb (lower "email") "email") with true. cbv iota.
  unfold dpath_value_body. by rewrite lookup_insert_ne.
Qed.

Lemma pure_get_auth_engine {S} (parsed_body : gmap string json) (s : S) :
  snd (_get_auth_engine parsed_body s) = s.
Proof.
  unfold _get_auth_engine, bind, dpath_value_body.
  destruct (parsed_body !! "engine") as [[name | |]|]; simpl; try done.
  by destruct (auth_engine_identity_map !! lower name).
Qed.

(** A login that returned has committed, and a second commit goes
    through and stores nothing more. *)
Lemma authenticate_then_commit (credentials : gmap string pyval) (w w' : World)
    (x : string * string * ref) :
  authenticate env credentials w = (Ok x, w') ->
  commit w' = (Ok tt, w').
Proof.
  unfold authenticate, bind.
  destruct (_get_info credentials true w) as [[[[e p] [r|]]|e0] w1]; try discriminate.
  destruct (check_password env r p w1) as [[[]|e1] w2]; try discriminate.
  change (negb true) with false. cbv beta iota.
  destruct (deref r w2) as [[u|e2] w3]; try discriminate.
  rewrite _create_token_pair_run. cbv beta iota. unfold session_add, modify, commit at 1.
  destruct (writable _ && primary_key_free _) eqn:Hc; [|discriminate].
  intros [= <- <-]. unfold ret. unfold commit, primary_key_free in *. simpl in *.
  rewrite app_nil_r, Hc. unfold flush. simpl. by rewrite app_nil_r.
Qed.

(** X13.  A login through the view: for a body that names the email
    engine and carries credentials with which [authenticate] goes through,
    [AuthRegisterView.post] answers 200 with the access token and the user
    as data and the refresh token in an http-only, secure, strict
    same-site cookie; exactly one row reached the table of refresh tokens;
    the access token and the user are set on the request and nothing else
    is; and a read of [request.app_user] afterwards returns the user
    without asking the token library or the storage. *)
Theorem register_view_logs_in
    (parsed_body : gmap string json) (name : string) (credentials : gmap string pyval)
    (e p : string) (r : Request) (a : ref) (u : AbstractUser) :
  parsed_body !! "engine" = Some (JStr name) ->
  lower name = "email" ->
  parsed_body !! "credentials" = Some (JDict credentials) ->
  credentials !! "email" = Some (VStr e) ->
  credentials !! "password" = Some (VStr p) ->
  find_index (email_is (lower e)) (objects (lamb_db_session r)) = Some a ->
  objects (lamb_db_session r) !! a = Some u ->
  verifies env p u = true ->
  (rehash_due env p u = true -> validate_password env p u = []) ->
  writable (lamb_db_session r) = true ->
  pending (lamb_db_session r) = [] ->
  distinct (map value (refresh_tokens (lamb_db_session r)
                       ++ [issued_row env (lamb_db_session r) u])) = true ->
  exists r',
    AuthRegisterView_post env parsed_body r
    = (Ok {| status := 200;
             data := Some (<["access_token" :=
                               OVal (VStr (access_token_of env (lamb_db_session r) (user_id u)))]>
                             (<["user" := OUser a]> ∅));
             cookies := <["refresh_token" :=
                            {| cookie_value := refresh_token_of env (lamb_db_session r) (user_id u);
                               httponly := true; secure := true;
                               samesite := Some "strict" |}]> ∅ |}, r')
    /\ refresh_tokens (lamb_db_session r')
       = refresh_tokens (lamb_db_session r) ++ [issued_row env (lamb_db_session r) u]
    /\ pending (lamb_db_session r') = []
    /\ __dict__ r'
       = <["_app_user" := OUser a]>
           (<["_app_user_token" :=
                OVal (VStr (access_token_of env (lamb_db_session r) (user_id u)))]> (__dict__ r))
    /\ __get__ (app_user_descr env) r' = (Ok (OUser a), r').
Proof.
  intros Hn Hl Hc He Hp Hfind Hobj Hver Hre Hwr Hpend Hpk.
  destruct (authenticate_succeeds env _ _ _ _ _ _ He Hp Hfind Hobj Hver Hre Hwr Hpend Hpk)
    as (w' & Hrun & Hrows & Hpending & _).
  pose proof (authenticate_then_commit _ _ _ _ Hrun) as Hcommit.
  unfold AuthRegisterView_post, bind.
  rewrite (_get_auth_engine_run parsed_body name r Hn), Hl.
  change (String.eqb "email" "email") with true. cbv iota.
  unfold dpath_value_body. rewrite Hc. simpl.
  unfold on_session at 1. simpl. rewrite Hrun.
  unfold __set__, modify, on_session. simpl. rewrite Hcommit.
  eexists. split; [reflexivity|]. simpl.
  split; [exact Hrows|]. split; [exact Hpending|]. split; [reflexivity|].
  apply get_cached. simpl. by rewrite lookup_insert_eq.
Qed.

(** X14.  A login through the view that fails without a record being
    logged sets no identity: however [AuthRegisterView.post] comes to raise,
    short of the one failure that is logged (the validators refusing the
    password whose hash is recomputed), the attributes and the headers of
    the request are what they were. *)
Theorem failed_register_sets_no_identity
    (parsed_body : gmap string json) (r : Request) (x : exn) :
  fst (AuthRegisterView_post env parsed_body r) = Raise x ->
  log (lamb_db_session (snd (AuthRegisterView_post env parsed_body r)))
  = log (lamb_db_session r) ->
  __dict__ (snd (AuthRegisterView_post env parsed_body r)) = __dict__ r
  /\ META (snd (AuthRegisterView_post env parsed_body r)) = META r.
Proof.
  unfold AuthRegisterView_post, bind.
  pose proof (pure_get_auth_engine parsed_body r) as Hpure.
  destruct (_get_auth_engine parsed_body r) as [[cls|e0] r0]; simpl in Hpure; subst r0;
    [|done].
  unfold dpath_value_body.
  destruct (parsed_body !! "credentials") as [[| credentials |]|]; simpl; try done.
  unfold on_session, __set__, modify.
  destruct (engine_authenticate env cls credentials (lamb_db_session r))
    as [[[[access_token refresh_token] user]|e1] w'] eqn:Hrun; simpl; [|done].
  destruct cls; simpl in Hrun; [discriminate|].
  by rewrite (authenticate_then_commit _ _ _ _ Hrun).
Qed.

End RegisterView.

Lemma engine_is_selected_by_lowercased_name_witness :
  AuthRegisterView_post stub (<["engine" := JStr "EMail"]> ∅) (request_with None world0)
  = if String.eqb (lower "EMail") "email"
    then AuthRegisterView_post stub (<["engine" := JStr "email"]> (<["engine" := JStr "EMail"]> ∅))
           (request_with None world0)
    else (Raise (InvalidParamValueError ("Unknown auth engine='" +:+ lower "EMail" +:+ "'") []),
          request_with None world0).
Proof.
  apply (engine_is_selected_by_lowercased_name stub (<["engine" := JStr "EMail"]> ∅) "EMail"
           (request_with None world0)).
  reflexivity.
Defined.

Lemma register_view_logs_in_witness :
  exists r',
    AuthRegisterView_post stub (login_body "Email" "Admin@Example.com" "correct horse")
      (request_with None world0)
    = (Ok {| status := 200;
             data := Some (<["access_token" :=
                               OVal (VStr (access_token_of stub
                                             (lamb_db_session (request_with None world0))
                                             (user_id admin)))]>
                             (<["user" := OUser 0%nat]> ∅));
             cookies := <["refresh_token" :=
                            {| cookie_value :=
                                 refresh_token_of stub
                                   (lamb_db_session (request_with None world0)) (user_id admin);
                               httponly := true; secure := true;
                               samesite := Some "strict" |}]> ∅ |}, r')
    /\ refresh_tokens (lamb_db_session r')
       = refresh_tokens (lamb_db_session (request_with None world0))
         ++ [issued_row stub (lamb_db_session (request_with None world0)) admin]
    /\ pending (lamb_db_session r') = []
    /\ __dict__ r'
       = <["_app_user" := OUser 0%nat]>
           (<["_app_user_token" :=
                OVal (VStr (access_token_of stub (lamb_db_session (request_with None world0))
                              (user_id admin)))]>
              (__dict__ (request_with None world0)))
    /\ __get__ (app_user_descr stub) r' = (Ok (OUser 0%nat), r').
Proof.
  apply (register_view_logs_in stub (login_body "Email" "Admin@Example.com" "correct horse")
           "Email" (credentials_of "Admin@Example.com" "correct horse")
           "Admin@Example.com" "correct horse" (request_with None world0) 0%nat admin);
    reflexivity.
Defined.

Lemma failed_register_sets_no_identity_witness :
  __dict__ (snd (AuthRegisterView_post stub
                   (login_body "email" "admin@example.com" "wrong horse")
                   (request_with None world0)))
  = __dict__ (request_with None world0)
  /\ META (snd (AuthRegisterView_post stub
                  (login_body "email" "admin@example.com" "wrong horse")
                  (request_with None world0)))
     = META (request_with None world0).
Proof.
  apply (failed_register_sets_no_identity stub
           (login_body "email" "admin@example.com" "wrong horse")
           (request_with None world0) invalid_credentials);
    reflexivity.
Defined.

Section UserViews.

Context (env : Env).

Lemma can_read_user_run (a t : ref) (w : World) (ua : AbstractUser) (cls : role) :
  objects w !! a = Some ua ->
  class_of ua = Some cls ->
  can_read_user (OUser a) (OUser t) w
  = (if is_confirmed ua then Ok (permission_table cls (CanReadUser t) a)
     else Raise UserIsNotConfirmedError, w).
Proof.
  intros Ha Hcls. unfold can_read_user, bind.
  rewrite (deref_Some _ _ _ Ha), Hcls. destruct cls; by apply ask_run.
Qed.

(** X15.  [UserView.get] for an identifier other than [me] that parses to
    an id, asked by a resolved actor that is a super admin or an operator:
    the target is looked up before the actor is checked.  No user with the
    id gives [NotExistError], whoever asks; a user with the id gives
    [UserIsNotConfirmedError] to an actor that is not confirmed, the user
    to a super admin and to the operator that it is, and [AuthForbidden] to
    any other operator.  The attributes of the request and the users are
    left as they were. *)
Theorem user_view_by_id
    (ident : string) (uid : UUID) (r : Request) (a : ref) (ua : AbstractUser) (cls : role) :
  __dict__ r !! "_app_user" = Some (OUser a) ->
  objects (lamb_db_session r) !! a = Some ua ->
  class_of ua = Some cls ->
  String.eqb ident "me" = false ->
  uuid_parse env ident = Some uid ->
  fst (UserView_get env ident r)
  = match find_index (fun u => N.eqb (user_id u) uid) (objects (lamb_db_session r)) with
    | None =>
        Fail (NotExistError ("User with user_id: " +:+ uuid_str env uid +:+ " does not exists"))
    | Some t =>
        if negb (is_confirmed ua) then Fail (Lamb UserIsNotConfirmedError)
        else if permission_table cls (CanReadUser t) a then Done (OUser t)
             else Fail (AuthForbidden ("You have not access to user with user_id: " +:+ ident))
    end
  /\ __dict__ (snd (UserView_get env ident r)) = __dict__ r
  /\ objects (lamb_db_session (snd (UserView_get env ident r))) = objects (lamb_db_session r).
Proof.
  intros Hc Ha Hcls Hme Hu.
  assert (Hg : get_user_by_identifier env ident r
               = (match find_index (fun u => N.eqb (user_id u) uid)
                          (objects (lamb_db_session r)) with
                  | Some t => Done (OUser t)
                  | None =>
                      Fail (NotExistError ("User with user_id: " +:+ uuid_str env uid
                                           +:+ " does not exists"))
                  end,
                  snd (on_session (query_get uid) r))).
  { unfold get_user_by_identifier, vbind. rewrite Hme.
    unfold lift. simpl. rewrite Hu. simpl.
    unfold on_session, query_get, query_first. simpl.
    by destruct (find_index _ _). }
  unfold UserView_get, vbind. rewrite Hg.
  set (r1 := snd (on_session (query_get uid) r)).
  assert (Hc1 : __dict__ r1 !! _private_name (app_user_descr env) = Some (OUser a))
    by exact Hc.
  assert (Ha1 : objects (lamb_db_session r1) !! a = Some ua) by exact Ha.
  destruct (find_index _ _) as [t|]; [|done].
  unfold lift. rewrite (get_cached _ _ _ Hc1).
  unfold on_session. rewrite (can_read_user_run a t _ ua cls Ha1 Hcls).
  destruct (is_confirmed ua); simpl; [|done].
  by destruct (permission_table cls (CanReadUser t) a).
Qed.

(** X16.  [UserView.get] for [me], asked by a resolved actor that is a
    super admin or an operator: a confirmed actor gets itself, an actor
    that is not confirmed gets [UserIsNotConfirmedError]; the storage is
    not asked and nothing changes. *)
Theorem user_view_me (r : Request) (a : ref) (ua : AbstractUser) (cls : role) :
  __dict__ r !! "_app_user" = Some (OUser a) ->
  objects (lamb_db_session r) !! a = Some ua ->
  class_of ua = Some cls ->
  UserView_get env "me" r
  = (if is_confirmed ua then Done (OUser a) else Fail (Lamb UserIsNotConfirmedError), r).
Proof.
  intros Hc Ha Hcls.
  unfold UserView_get, get_user_by_identifier, vbind.
  change (String.eqb "me" "me") with true. cbv iota.
  unfold lift. rewrite (get_cached (app_user_descr env) _ (OUser a)) by exact Hc.
  cbv beta iota. rewrite (get_cached (app_user_descr env) _ (OUser a)) by exact Hc.
  unfold on_session. cbv beta iota.
  rewrite (can_read_user_run a a _ ua cls Ha Hcls).
  destruct r as [meta d w]. simpl.
  destruct (is_confirmed ua); simpl; [|done].
  assert (permission_table cls (CanReadUser a) a = true) as ->; [|done].
  destruct cls; simpl; [done|]. by apply bool_decide_eq_true_2.
Qed.

(** X17.  [StoreExchangeRatesView.post] on a request with nothing cached
    whose token the library verifies and names a stored user: a super admin
    or an operator is answered 201 and exactly one task is sent, with the
    id of the token as its argument; any other user is refused with
    [AuthForbidden] and no task is sent.  Neither [is_confirmed] nor
    [is_blocked] is looked at, and the two reads of the identity ask the
    token library once and the storage once. *)
Theorem store_exchange_rates_by_role
    (s : App) (payload : gmap string pyval) (id_str : string) (uid : UUID) (a : ref)
    (u : AbstractUser) :
  (forall st, __dict__ (request s) !! private_name st = None) ->
  library_verdict env (request s) = Claims payload ->
  payload !! "user_id" = Some (VStr id_str) ->
  uuid_parse env id_str = Some uid ->
  find_index (fun u => N.eqb (user_id u) uid) (objects (lamb_db_session (request s))) = Some a ->
  objects (lamb_db_session (request s)) !! a = Some u ->
  StoreExchangeRatesView_post env s
  = if bool_decide (is_Some (class_of u))
    then (Done {| status := 201; data := None; cookies := ∅ |},
          {| request := resolved (request s) payload uid a;
             store_exchanges_rates_task :=
               store_exchanges_rates_task s ++ [[OVal (VUuid uid)]] |})
    else (Fail (AuthForbidden "You have not access to store exchanges rates."),
          {| request := resolved (request s) payload uid a;
             store_exchanges_rates_task := store_exchanges_rates_task s |}).
Proof.
  intros Hfresh Hv Hp Hu Hf Ha.
  unfold StoreExchangeRatesView_post, vbind.
  unfold on_request at 1. unfold lift at 1.
  rewrite (get_user_resolved env _ _ _ _ _ Hfresh Hv Hp Hu Hf).
  cbv beta iota. unfold on_request at 1. unfold lift at 1. unfold on_session at 1.
  unfold isinstance_SuperAdmin_or_Operator, gets.
  cbn [request store_exchanges_rates_task].
  change (objects (lamb_db_session (resolved (request s) payload uid a)))
    with (objects (lamb_db_session (request s))).
  rewrite Ha. cbv beta iota.
  destruct (bool_decide (is_Some (class_of u))); cbn [negb]; cbv beta iota; [|reflexivity].
  unfold on_request, lift. cbn [request store_exchanges_rates_task].
  erewrite (get_cached (app_user_id_descr env) _ (OVal (VUuid uid))).
  - reflexivity.
  - simpl. rewrite lookup_insert_ne by done. apply lookup_insert_eq.
Qed.

End UserViews.

Lemma user_view_by_id_witness :
  fst (UserView_get stub "1" (request_of 3%nat world0))
  = match find_index (fun u => N.eqb (user_id u) 1%N)
            (objects (lamb_db_session (request_of 3%nat world0))) with
    | None =>
        Fail (NotExistError ("User with user_id: " +:+ uuid_str stub 1%N +:+ " does not exists"))
    | Some t =>
        if negb (is_confirmed bob) then Fail (Lamb UserIsNotConfirmedError)
        else if permission_table ROperator (CanReadUser t) 3%nat then Done (OUser t)
             else Fail (AuthForbidden ("You have not access to user with user_id: " +:+ "1"))
    end
  /\ __dict__ (snd (UserView_get stub "1" (request_of 3%nat world0)))
     = __dict__ (request_of 3%nat world0)
  /\ objects (lamb_db_session (snd (UserView_get stub "1" (request_of 3%nat world0))))
     = objects (lamb_db_session (request_of 3%nat world0)).
Proof.
  apply (user_view_by_id stub "1" 1%N (request_of 3%nat world0) 3%nat bob ROperator);
    reflexivity.
Defined.

Lemma user_view_me_witness :
  UserView_get stub "me" (request_of 3%nat world0)
  = (if is_confirmed bob then Done (OUser 3%nat) else Fail (Lamb UserIsNotConfirmedError),
     request_of 3%nat world0).
Proof.
  apply (user_view_me stub (request_of 3%nat world0) 3%nat bob ROperator); reflexivity.
Defined.

Lemma store_exchange_rates_by_role_witness :
  StoreExchangeRatesView_post stub
    {| request := request_with (Some "token-of-1") world0; store_exchanges_rates_task := [] |}
  = if bool_decide (is_Some (class_of admin))
    then (Done {| status := 201; data := None; cookies := ∅ |},
          {| request := resolved (request_with (Some "token-of-1") world0)
                          (<["user_id" := VStr "1"]> ∅) 1%N 0%nat;
             store_exchanges_rates_task := [] ++ [[OVal (VUuid 1%N)]] |})
    else (Fail (AuthForbidden "You have not access to store exchanges rates."),
          {| request := resolved (request_with (Some "token-of-1") world0)
                          (<["user_id" := VStr "1"]> ∅) 1%N 0%nat;
             store_exchanges_rates_task := [] |}).
Proof.
  apply (store_exchange_rates_by_role stub
           {| request := request_with (Some "token-of-1") world0;
              store_exchanges_rates_task := [] |}
           (<["user_id" := VStr "1"]> ∅) "1" 1%N 0%nat admin);
    [intros []; reflexivity | reflexivity ..].
Defined.

Section TextProperties.

Context {char : Type} (isspace : char -> bool) (space : char).

Lemma lstrip_suffix (s : list char) : exists p, s = p ++ lstrip isspace s.
Proof.
  induction s as [|c s [p IH]]; [by exists []|]. simpl.
  destruct (isspace c); [|by exists []].
  exists (c :: p). simpl. by rewrite <- IH.
Qed.

Lemma lstrip_length (s : list char) : (length (lstrip isspace s) <= length s)%nat.
Proof.
  destruct (lstrip_suffix s) as [p H]. rewrite H at 2. rewrite length_app. lia.
Qed.

Lemma lstrip_idem (s : list char) : lstrip isspace (lstrip isspace s) = lstrip isspace s.
Proof.
  induction s as [|c s IH]; [done|]. simpl.
  destruct (isspace c) eqn:Hc; [done|]. simpl. by rewrite Hc.
Qed.

Lemma lstrip_head (s : list char) :
  lstrip isspace s = [] \/ exists c t, lstrip isspace s = c :: t /\ isspace c = false.
Proof.
  induction s as [|c s IH]; [by left|]. simpl.
  destruct (isspace c) eqn:Hc; [done|]. right. by exists c, s.
Qed.

Lemma lstrip_snoc (s : list char) (c : char) :
  isspace c = false -> lstrip isspace (s ++ [c]) = lstrip isspace s ++ [c].
Proof.
  intros Hc. induction s as [|d s IH]; simpl; [by rewrite Hc|].
  by destruct (isspace d).
Qed.

Lemma strip_length (s : list char) : (length (strip isspace s) <= length s)%nat.
Proof.
  unfold strip, rstrip. rewrite length_rev.
  etrans; [apply lstrip_length|]. rewrite length_rev. apply lstrip_length.
Qed.

(** What [strip] returns has no white space at either end. *)
Lemma strip_trimmed (s : list char) :
  lstrip isspace (strip isspace s) = strip isspace s
  /\ lstrip isspace (rev (strip isspace s)) = rev (strip isspace s).
Proof.
  unfold strip, rstrip. split.
  - destruct (lstrip_head s) as [-> | (c & t & -> & Hc)]; [done|].
    simpl. rewrite (lstrip_snoc _ _ Hc), rev_app_distr. simpl. by rewrite Hc.
  - by rewrite rev_involutive, lstrip_idem.
Qed.

Lemma strip_of_trimmed (s : list char) :
  lstrip isspace s = s -> lstrip isspace (rev s) = rev s -> strip isspace s = s.
Proof.
  intros H1 H2. unfold strip, rstrip. by rewrite H1, H2, rev_involutive.
Qed.

Lemma split_from_word (w word s : list char) :
  forallb (fun c => negb (isspace c)) w = true ->
  split_from isspace word (w ++ s) = split_from isspace (word ++ w) s.
Proof.
  revert word. induction w as [|c w IH]; intros word; simpl.
  - by rewrite app_nil_r.
  - rewrite andb_true_iff, negb_true_iff. intros [-> Hw].
    rewrite (IH _ Hw). by rewrite <- app_assoc.
Qed.

Lemma split_from_words (word s : list char) :
  forallb (fun c => negb (isspace c)) word = true ->
  Forall (is_word isspace) (split_from isspace word s).
Proof.
  revert word. induction s as [|c s IH]; intros word Hw; simpl.
  - destruct word; [constructor|]. by repeat constructor.
  - destruct (isspace c) eqn:Hc.
    + destruct word; [by apply IH|]. constructor; [done|by apply IH].
    + apply IH. rewrite forallb_app, Hw. simpl. by rewrite Hc.
Qed.

Lemma split_from_space (word s : list char) (c : char) :
  word <> [] -> isspace c = true ->
  split_from isspace word (c :: s) = word :: split_from isspace [] s.
Proof. intros Hne Hc. simpl. rewrite Hc. by destruct word. Qed.

Lemma split_join (ws : list (list char)) :
  isspace space = true ->
  Forall (is_word isspace) ws ->
  split_from isspace [] (join [space] ws) = ws.
Proof.
  intros Hs. induction ws as [|w ws IH]; [done|].
  intros Hall. apply Forall_cons in Hall as [[Hne Hw] Hws].
  destruct ws as [|w' ws].
  - simpl. rewrite <- (app_nil_r w) at 1. rewrite (split_from_word _ _ _ Hw). simpl.
    by destruct w.
  - change (join [space] (w :: w' :: ws)) with (w ++ space :: join [space] (w' :: ws)).
    rewrite (split_from_word _ _ _ Hw), app_nil_l.
    rewrite (split_from_space _ _ _ Hne Hs). by rewrite (IH Hws).
Qed.

Lemma join_snoc (sep : list char) (ws : list (list char)) (w : list char) :
  ws <> [] -> join sep (ws ++ [w]) = join sep ws ++ sep ++ w.
Proof.
  induction ws as [|a ws IH]; [done|]. intros _.
  destruct ws as [|b ws]; [done|].
  change (join sep ((a :: b :: ws) ++ [w])) with (a ++ sep ++ join sep ((b :: ws) ++ [w])).
  rewrite IH by done.
  change (join sep (a :: b :: ws)) with (a ++ sep ++ join sep (b :: ws)).
  by rewrite <- !app_assoc.
Qed.

Lemma rev_join (sep : list char) (ws : list (list char)) :
  rev (join sep ws) = join (rev sep) (map (@rev char) (rev ws)).
Proof.
  induction ws as [|w ws IH]; [done|].
  destruct ws as [|b ws]; [done|].
  change (join sep (w :: b :: ws)) with (w ++ sep ++ join sep (b :: ws)).
  rewrite !rev_app_distr, IH, <- app_assoc.
  change (rev (w :: b :: ws)) with (rev (b :: ws) ++ [w]).
  rewrite map_app. change (map (@rev char) [w]) with [rev w].
  rewrite join_snoc; [done|].
  simpl. by destruct (rev ws).
Qed.

Lemma is_word_rev (w : list char) : is_word isspace w -> is_word isspace (rev w).
Proof.
  intros [Hne Hw]. split.
  - intros H. apply Hne. by rewrite <- (rev_involutive w), H.
  - rewrite List.forallb_forall in *. intros c Hc. apply Hw. by apply in_rev.
Qed.

Lemma join_lstrip (ws : list (list char)) :
  Forall (is_word isspace) ws ->
  lstrip isspace (join [space] ws) = join [space] ws.
Proof.
  destruct ws as [|w ws]; [done|].
  intros Hall. apply Forall_cons in Hall as [[Hne Hw] _].
  destruct w as [|c w]; [done|]. simpl in Hw.
  apply andb_true_iff in Hw as [Hc _]. apply negb_true_iff in Hc.
  destruct ws; simpl; by rewrite Hc.
Qed.

(** What [" ".join(s.split())] returns has no white space at either
    end. *)
Lemma join_trimmed (ws : list (list char)) :
  Forall (is_word isspace) ws ->
  strip isspace (join [space] ws) = join [space] ws.
Proof.
  intros Hall. apply strip_of_trimmed; [by apply join_lstrip|].
  rewrite rev_join. simpl rev at 1. apply join_lstrip.
  apply List.Forall_forall. intros w Hin. apply in_map_iff in Hin as (w0 & <- & Hin0).
  apply is_word_rev. rewrite List.Forall_forall in Hall. apply Hall. by apply in_rev.
Qed.

Lemma join_cons_length (sep w : list char) (ws : list (list char)) :
  (length (join sep (w :: ws)) <= length w + length sep + length (join sep ws))%nat.
Proof.
  destruct ws as [|b ws]; [simpl; lia|].
  change (join sep (w :: b :: ws)) with (w ++ sep ++ join sep (b :: ws)).
  rewrite !length_app. lia.
Qed.

Lemma join_split_length (word s : list char) :
  (length (join [space] (split_from isspace word s)) <= length word + length s)%nat.
Proof.
  revert word. induction s as [|c s IH]; intros word; simpl.
  - destruct word; simpl; lia.
  - destruct (isspace c).
    + destruct word as [|d word]; [specialize (IH []); simpl in IH; lia|].
      etrans; [apply join_cons_length|]. specialize (IH []). simpl in *. lia.
    + etrans; [apply IH|]. rewrite length_app. simpl. lia.
Qed.

(** The value that [_validate_string_length] checks and returns. *)
Lemma validated_value (value : list char) (key : string) (max_length : Z)
    (trimming required : bool) (v' : list char) :
  _validate_string_length isspace space (Some value) key max_length trimming required
  = Ok (Some v') ->
  v' = (if trimming then join [space] (split isspace (strip isspace value))
        else strip isspace value)
  /\ (Z.of_nat (length v') >? max_length) = false
  /\ required && negb (Z.of_nat (length v') =? max_length) = false.
Proof.
  unfold _validate_string_length.
  set (v := if trimming then _ else _).
  destruct (Z.of_nat (length v) >? max_length) eqn:H1; [done|].
  destruct (required && negb (Z.of_nat (length v) =? max_length)) eqn:H2; [done|].
  intros [= <-]. by rewrite H1, H2.
Qed.

(** X18.  [_validate_string_length] returns text in a normal form and is
    idempotent: a value it returns has no white space at either end; with
    trimming the value is a sequence of words (not empty, without white
    space) joined by single spaces; and validating the returned value again,
    with the same limit and flags, returns it unchanged. *)
Theorem validated_string_is_normalised
    (value : list char) (key : string) (max_length : Z) (trimming required : bool)
    (v' : list char) :
  isspace space = true ->
  _validate_string_length isspace space (Some value) key max_length trimming required
  = Ok (Some v') ->
  _validate_string_length isspace space (Some v') key max_length trimming required
  = Ok (Some v')
  /\ strip isspace v' = v'
  /\ (trimming = true -> exists ws, Forall (is_word isspace) ws /\ v' = join [space] ws).
Proof.
  intros Hs H. destruct (validated_value _ _ _ _ _ _ H) as (Hv & H1 & H2).
  assert (Hstrip : strip isspace v' = v').
  { destruct trimming; subst v'.
    - apply join_trimmed. by apply split_from_words.
    - destruct (strip_trimmed value). by apply strip_of_trimmed. }
  assert (Hnorm : (if trimming then join [space] (split isspace (strip isspace v'))
                   else strip isspace v') = v').
  { rewrite Hstrip. destruct trimming; [|done]. subst v'. unfold split.
    rewrite split_join; [done|done|]. by apply split_from_words. }
  split; [|split; [exact Hstrip|]].
  - unfold _validate_string_length. rewrite Hnorm, H1, H2. done.
  - intros ->. exists (split isspace (strip isspace value)).
    split; [by apply split_from_words|done].
Qed.

(** X19.  The limit of [_validate_string_length] is on the normalised
    text: a value that is returned is no longer than [max_length] and no
    longer than the value given, and has exactly [max_length] characters
    when that is required. *)
Theorem validated_string_length
    (value : list char) (key : string) (max_length : Z) (trimming required : bool)
    (v' : list char) :
  _validate_string_length isspace space (Some value) key max_length trimming required
  = Ok (Some v') ->
  Z.of_nat (length v') <= max_length
  /\ (length v' <= length value)%nat
  /\ (required = true -> Z.of_nat (length v') = max_length).
Proof.
  intros H. destruct (validated_value _ _ _ _ _ _ H) as (Hv & H1 & H2).
  split; [lia|]. split.
  - subst v'. destruct trimming; [|apply strip_length].
    etrans; [apply join_split_length|]. simpl. apply strip_length.
  - intros ->. simpl in H2. apply negb_false_iff in H2. lia.
Qed.

End TextProperties.

Lemma validated_string_is_normalised_witness :
  validate_social_network_id ascii_isspace ascii_space "facebook_id"
    (Some (String.list_ascii_of_string "ada lovelace"))
  = Ok (Some (String.list_ascii_of_string "ada lovelace"))
  /\ strip ascii_isspace (String.list_ascii_of_string "ada lovelace")
     = String.list_ascii_of_string "ada lovelace"
  /\ (true = true ->
      exists ws, Forall (is_word ascii_isspace) ws
                 /\ String.list_ascii_of_string "ada lovelace" = join [ascii_space] ws).
Proof.
  apply (validated_string_is_normalised ascii_isspace ascii_space
           (String.list_ascii_of_string "  ada   lovelace  ") "facebook_id" 150 true false
           (String.list_ascii_of_string "ada lovelace")); reflexivity.
Defined.

Lemma validated_string_length_witness :
  Z.of_nat (length (String.list_ascii_of_string "ada lovelace")) <= 150
  /\ (length (String.list_ascii_of_string "ada lovelace")
      <= length (String.list_ascii_of_string "  ada   lovelace  "))%nat
  /\ (false = true -> Z.of_nat (length (String.list_ascii_of_string "ada lovelace")) = 150).
Proof.
  apply (validated_string_length ascii_isspace ascii_space
           (String.list_ascii_of_string "  ada   lovelace  ") "facebook_id" 150 true false
           (String.list_ascii_of_string "ada lovelace")); reflexivity.
Defined.

Section EmailFormat.

Lemma append_empty (s1 s2 : string) : s1 +:+ s2 = "" -> s1 = "" /\ s2 = "".
Proof. destruct s1; intros H; [split; [done|exact H]|discriminate H]. Qed.

Lemma append_nil (s : string) : "" +:+ s = s.
Proof. reflexivity. Qed.

Lemma append_cons (c : Ascii.ascii) (s1 s2 : string) :
  String c s1 +:+ s2 = String c (s1 +:+ s2).
Proof. reflexivity. Qed.

Lemma append_assoc (s1 s2 s3 : string) : (s1 +:+ s2) +:+ s3 = s1 +:+ (s2 +:+ s3).
Proof. induction s1 as [|c s1 IH]; [done|]. by rewrite !append_cons, IH. Qed.

Lemma nullable_lang (r : regex) : nullable r = true <-> lang r "".
Proof.
  split.
  - induction r as [| |p|r1 IH1 r2 IH2|r1 IH1 r2 IH2|r IH]; simpl; try done.
    + intros _. constructor.
    + rewrite andb_true_iff. intros [H1 H2].
      change "" with ("" +:+ ""). constructor; auto.
    + rewrite orb_true_iff. intros [H|H]; [apply lang_alt_l|apply lang_alt_r]; auto.
    + intros _. constructor.
  - intros H. remember "" as s eqn:E.
    induction H as [|p c Hp|r1 r2 s1 s2 H1 IH1 H2 IH2|r1 r2 s H IH|r1 r2 s H IH| |r s1 s2 H1 IH1 H2 IH2];
      simpl; try done.
    + apply append_empty in E as [-> ->]. by rewrite IH1, IH2.
    + by rewrite IH.
    + rewrite IH by done. apply orb_true_r.
Qed.

Lemma deriv_lang (c : Ascii.ascii) (r : regex) (s : string) :
  lang (deriv c r) s <-> lang r (String c s).
Proof.
  split.
  - revert s. induction r as [| |p|r1 IH1 r2 IH2|r1 IH1 r2 IH2|r IH]; simpl; intros s H.
    + inversion H.
    + inversion H.
    + destruct (p c) eqn:Hp; inversion H; subst. by constructor.
    + assert (Hcat : forall t, lang (Cat (deriv c r1) r2) t -> lang (Cat r1 r2) (String c t)).
      { intros t Ht. inversion Ht; subst.
        change (String c (s1 +:+ s2)) with (String c s1 +:+ s2). constructor; auto. }
      destruct (nullable r1) eqn:Hn; [|by apply Hcat].
      inversion H; subst; [by apply Hcat|].
      change (String c s) with ("" +:+ String c s).
      constructor; [by apply nullable_lang|auto].
    + inversion H; subst; [apply lang_alt_l|apply lang_alt_r]; auto.
    + inversion H; subst.
      change (String c (s1 +:+ s2)) with (String c s1 +:+ s2). constructor; auto.
  - intros H. remember (String c s) as t eqn:E. revert s E.
    induction H as [|p c' Hp|r1 r2 s1 s2 H1 IH1 H2 IH2|r1 r2 t H IH|r1 r2 t H IH|r
                    |r s1 s2 H1 IH1 H2 IH2]; intros s E; simpl; try done.
    + injection E as -> <-. rewrite Hp. constructor.
    + destruct s1 as [|c1 s1]; rewrite ?append_nil, ?append_cons in E.
      * subst s2. apply nullable_lang in H1. rewrite H1.
        apply lang_alt_r. by apply IH2.
      * injection E as -> <-.
        assert (lang (Cat (deriv c r1) r2) (s1 +:+ s2)) by (constructor; auto).
        destruct (nullable r1); [by apply lang_alt_l|done].
    + apply lang_alt_l. by apply IH.
    + apply lang_alt_r. by apply IH.
    + destruct s1 as [|c1 s1]; rewrite ?append_nil, ?append_cons in E.
      * by apply IH2.
      * injection E as -> <-. constructor; auto.
Qed.

Lemma fullmatch_lang (r : regex) (s : string) : fullmatch r s = true <-> lang r s.
Proof.
  revert r. induction s as [|c s IH]; intros r; simpl.
  - apply nullable_lang.
  - rewrite IH. apply deriv_lang.
Qed.

Lemma lang_star_class (p : Ascii.ascii -> bool) (s : string) :
  lang (Star (Class p)) s <-> all_in p s = true.
Proof.
  split.
  - intros H. remember (Star (Class p)) as r eqn:E.
    induction H as [| | | | | |r s1 s2 H1 _ H2 IH2]; try done.
    injection E as ->. inversion H1; subst.
    rewrite append_cons, append_nil. simpl. by rewrite H0, IH2.
  - induction s as [|c s IH]; simpl; [constructor|].
    rewrite andb_true_iff. intros [Hc Hs].
    change (String c s) with (String c "" +:+ s). constructor; [by constructor|auto].
Qed.

Lemma lang_plus_class (p : Ascii.ascii -> bool) (s : string) :
  lang (Plus (Class p)) s <-> some_in p s.
Proof.
  unfold Plus, some_in. split.
  - intros H. inversion H; subst. inversion H2; subst.
    rewrite append_cons, append_nil. simpl. split; [done|].
    rewrite H1. by apply lang_star_class.
  - intros [Hne Hs]. destruct s as [|c s]; [done|]. simpl in Hs.
    apply andb_true_iff in Hs as [Hc Hs].
    change (String c s) with (String c "" +:+ s).
    constructor; [by constructor|by apply lang_star_class].
Qed.

Lemma lang_one_char (members : string) (x : Ascii.ascii) (s : string) :
  (forall c, one_of members c = true <-> c = x) ->
  lang (Class (one_of members)) s <-> s = String x "".
Proof.
  intros Hx. split.
  - intros H. inversion H; subst. f_equal. by apply Hx.
  - intros ->. constructor. by apply Hx.
Qed.

Lemma one_of_single (x c : Ascii.ascii) : one_of (String x "") c = true <-> c = x.
Proof.
  unfold one_of. simpl. rewrite orb_false_r. apply Ascii.eqb_eq.
Qed.

(** The strings of the pattern of an email, up to the end of the value. *)
Lemma email_pattern_lang (s : string) :
  re_match_to_end email_pattern s = true
  <-> exists l d t e,
        s = l +:+ "@" +:+ d +:+ "." +:+ t +:+ e
        /\ some_in local_part l /\ some_in domain_label d /\ some_in domain_rest t
        /\ (e = "" \/ e = newline).
Proof.
  unfold re_match_to_end. rewrite fullmatch_lang. split.
  - intros H. inversion H as [| |? ? s0 e H0 He| | | |]; subst.
    unfold email_pattern in H0.
    inversion H0 as [| |? ? l s1 Hl H1| | | |]; subst.
    inversion H1 as [| |? ? at_ s2 Hat H2| | | |]; subst.
    inversion H2 as [| |? ? d s3 Hd H3| | | |]; subst.
    inversion H3 as [| |? ? dot t Hdot Ht| | | |]; subst.
    apply (lang_one_char "@" _ _ (one_of_single _)) in Hat. subst at_.
    apply (lang_one_char "." _ _ (one_of_single _)) in Hdot. subst dot.
    exists l, d, t, e.
    split; [by rewrite !append_assoc|].
    split; [by apply lang_plus_class|]. split; [by apply lang_plus_class|].
    split; [by apply lang_plus_class|].
    inversion He as [| | |? ? ? Heps|? ? ? Hnl| |]; subst.
    + left. by inversion Heps.
    + right. by apply (lang_one_char _ _ _ (one_of_single _)) in Hnl.
  - intros (l & d & t & e & -> & Hl & Hd & Ht & He).
    replace (l +:+ "@" +:+ d +:+ "." +:+ t +:+ e)
      with ((l +:+ "@" +:+ d +:+ "." +:+ t) +:+ e) by (by rewrite !append_assoc).
    constructor.
    + unfold email_pattern.
      constructor; [by apply lang_plus_class|].
      constructor; [by apply (lang_one_char "@" _ _ (one_of_single _))|].
      constructor; [by apply lang_plus_class|].
      constructor; [by apply (lang_one_char "." _ _ (one_of_single _))|].
      by apply lang_plus_class.
    + destruct He as [-> | ->]; [apply lang_alt_l; constructor|].
      apply lang_alt_r. by apply (lang_one_char _ _ _ (one_of_single _)).
Qed.

(** X20.  What [validate_name] takes for an email: a value is returned as
    it is, without any change of case, or refused with
    [InvalidParamValueError]; it is returned exactly when it is a local
    part, [@], a domain label, a dot and a rest of the domain, each of them
    not empty and of the characters of its class (letters, digits and
    [_.+-], letters, digits and [-], letters, digits and [-.]), with
    nothing after it but, possibly, one newline. *)
Theorem accepted_email_format (key : string) (s : string) :
  (validate_name key (Some s) = Ok (Some s)
   \/ validate_name key (Some s)
      = Raise (InvalidParamValueError ("Invalid email format for field '" +:+ key +:+ "'.") []))
  /\ (validate_name key (Some s) = Ok (Some s)
      <-> exists l d t e,
            s = l +:+ "@" +:+ d +:+ "." +:+ t +:+ e
            /\ some_in local_part l /\ some_in domain_label d /\ some_in domain_rest t
            /\ (e = "" \/ e = newline)).
Proof.
  rewrite <- email_pattern_lang. unfold validate_name.
  destruct (re_match_to_end email_pattern s); simpl.
  - split; [by left|done].
  - split; [by right|done].
Qed.

Lemma lower_append (s1 s2 : string) : lower (s1 +:+ s2) = lower s1 +:+ lower s2.
Proof.
  induction s1 as [|c s1 IH]; [done|].
  rewrite append_cons. simpl. by rewrite IH, append_cons.
Qed.

Lemma some_in_lower (p : Ascii.ascii -> bool) (s : string) :
  (forall c, p c = true -> p (lower_ascii c) = true) ->
  some_in p s -> some_in p (lower s).
Proof.
  intros Hp [Hne Hs]. split; [by destruct s|].
  clear Hne. induction s as [|c s IH]; [done|]. simpl in *.
  apply andb_true_iff in Hs as [Hc Hs]. by rewrite (Hp _ Hc), IH.
Qed.

Lemma local_part_lower (c : Ascii.ascii) :
  local_part c = true -> local_part (lower_ascii c) = true.
Proof. by destruct c as [[] [] [] [] [] [] [] []]; vm_compute. Qed.

Lemma domain_label_lower (c : Ascii.ascii) :
  domain_label c = true -> domain_label (lower_ascii c) = true.
Proof. by destruct c as [[] [] [] [] [] [] [] []]; vm_compute. Qed.

Lemma domain_rest_lower (c : Ascii.ascii) :
  domain_rest c = true -> domain_rest (lower_ascii c) = true.
Proof. by destruct c as [[] [] [] [] [] [] [] []]; vm_compute. Qed.

(** X21.  Lower-casing keeps an email valid: a value that [validate_name]
    returns is still returned after [lower], the form in which the engine
    looks an email up. *)
Theorem lower_case_email_stays_valid (key : string) (s : string) :
  validate_name key (Some s) = Ok (Some s) ->
  validate_name key (Some (lower s)) = Ok (Some (lower s)).
Proof.
  intros H.
  assert (Hm : re_match_to_end email_pattern s = true).
  { unfold validate_name in H. by destruct (re_match_to_end email_pattern s). }
  assert (Hl : re_match_to_end email_pattern (lower s) = true).
  { apply email_pattern_lang in Hm as (l & d & t & e & -> & Hl & Hd & Ht & He).
    apply email_pattern_lang. exists (lower l), (lower d), (lower t), e.
    split.
    - rewrite !lower_append. by destruct He as [-> | ->].
    - split; [by apply some_in_lower; [apply local_part_lower|]|].
      split; [by apply some_in_lower; [apply domain_label_lower|]|].
      split; [by apply some_in_lower; [apply domain_rest_lower|]|done]. }
  unfold validate_name. by rewrite Hl.
Qed.

End EmailFormat.

Lemma lower_case_email_stays_valid_witness :
  validate_name "email" (Some (lower "Bob@Example.com"))
  = Ok (Some (lower "Bob@Example.com")).
Proof.
  apply (lower_case_email_stays_valid "email" "Bob@Example.com"). reflexivity.
Defined.

Section RoundTrip.

Context (env : Env).

(** A login that goes through has read the clock twice. *)
Lemma authenticate_succeeds_clock (credentials : gmap string pyval) (e p : string)
    (w : World) (r : ref) (u : AbstractUser) :
  credentials !! "email" = Some (VStr e) ->
  credentials !! "password" = Some (VStr p) ->
  find_index (email_is (lower e)) (objects w) = Some r ->
  objects w !! r = Some u ->
  verifies env p u = true ->
  (rehash_due env p u = true -> validate_password env p u = []) ->
  writable w = true ->
  pending w = [] ->
  distinct (map value (refresh_tokens w ++ [issued_row env w u])) = true ->
  exists w',
    authenticate env credentials w
    = (Ok (access_token_of env w (user_id u), refresh_token_of env w (user_id u), r), w')
    /\ wall w' = wall w
    /\ reads w' = S (S (reads w))
    /\ objects w' = if rehash_due env p u then <[r := rehashed env p u]> (objects w)
                    else objects w.
Proof.
  intros He Hp Hfind Hobj Hver Hre Hwr Hpend Hpk.
  unfold authenticate, bind. rewrite (_get_info_run _ _ _ _ He Hp), Hfind.
  set (w1 := add_call _ w).
  rewrite (check_password_run env r p w1 u Hobj). subst w1.
  assert (Hpk1 : primary_key_free w = true).
  { unfold primary_key_free. rewrite Hpend, app_nil_r.
    rewrite map_app in Hpk. by apply distinct_app_l in Hpk. }
  assert (Hlt : (r < length (objects w))%nat) by (eapply lookup_lt_Some; eauto).
  unfold issued_row, refresh_token_of, access_token_of in *.
  unfold primary_key_free in Hpk1.
  destruct w as [os rts pend wr st lg wl rd cl sh]; simpl in *. subst wr pend.
  destruct (rehash_due env p u) eqn:Hrd.
  - rewrite (Hre eq_refl). unfold after_commit_attempt, primary_key_free. simpl.
    rewrite Hpk1. simpl. unfold deref. simpl.
    rewrite list_lookup_insert_eq by done.
    unfold _create_token_pair, utcnow, val, gets, bind, session_add, modify, commit, ret,
      primary_key_free. simpl. rewrite !app_nil_r.
    change (60 * 24 * 30) with 43200. change (60 * 24 * 3) with 4320. rewrite Hpk.
    eexists. split; [reflexivity|]. simpl. done.
  - rewrite Hver. simpl. unfold deref. simpl. rewrite Hobj.
    unfold _create_token_pair, utcnow, val, gets, bind, session_add, modify, commit, ret,
      primary_key_free. simpl.
    change (60 * 24 * 30) with 43200. change (60 * 24 * 3) with 4320. rewrite Hpk.
    eexists. split; [reflexivity|]. simpl. done.
Qed.

(** With ids that are unique, the user found by an id is the user that has
    it. *)
Lemma find_index_by_id (l : list AbstractUser) (a : nat) (u : AbstractUser) :
  NoDup (user_id <$> l) ->
  l !! a = Some u ->
  find_index (fun x => N.eqb (user_id x) (user_id u)) l = Some a.
Proof.
  revert a. induction l as [|x l IH]; intros a Hnd Ha; [done|].
  rewrite fmap_cons in Hnd. apply NoDup_cons in Hnd as [Hx Hnd].
  destruct a as [|a]; simpl in *.
  - injection Ha as ->. by rewrite N.eqb_refl.
  - destruct (N.eqb_spec (user_id x) (user_id u)) as [E|_].
    + exfalso. apply Hx. rewrite E. apply list_elem_of_fmap_2.
      by eapply list_elem_of_lookup_2.
    + by rewrite (IH a Hnd Ha).
Qed.

(** X22.  The token of a login names the user that logged in: after a
    login that goes through, a request that carries the access token
    resolves [request.app_user] to the user that [authenticate] returned,
    provided that user ids are unique, that the token library, asked at the
    time of the request, verifies the token and gives back the [user_id]
    claim that was encoded, and that the text of the id parses to the
    id. *)
Theorem login_token_resolves_to_the_user
    (credentials : gmap string pyval) (e p : string) (w : World) (a : ref) (u : AbstractUser)
    (payload : gmap string pyval) :
  credentials !! "email" = Some (VStr e) ->
  credentials !! "password" = Some (VStr p) ->
  find_index (email_is (lower e)) (objects w) = Some a ->
  objects w !! a = Some u ->
  verifies env p u = true ->
  (rehash_due env p u = true -> validate_password env p u = []) ->
  writable w = true ->
  pending w = [] ->
  distinct (map value (refresh_tokens w ++ [issued_row env w u])) = true ->
  NoDup (user_id <$> objects w) ->
  jwt_decode env (access_token_of env w (user_id u)) (APP_JWT_SECRET_KEY env)
    [APP_JWT_ALGORITHM] (wall w (S (S (reads w)))) = Claims payload ->
  payload !! "user_id" = Some (VStr (uuid_str env (user_id u))) ->
  uuid_parse env (uuid_str env (user_id u)) = Some (user_id u) ->
  exists access_token refresh_token w',
    authenticate env credentials w = (Ok (access_token, refresh_token, a), w')
    /\ fst (__get__ (app_user_descr env) (request_with (Some access_token) w'))
       = Ok (OUser a).
Proof.
  intros He Hp Hfind Hobj Hver Hre Hwr Hpend Hpk Hnd Hdec Hclaim Hparse.
  destruct (authenticate_succeeds_clock _ _ _ _ _ _ He Hp Hfind Hobj Hver Hre Hwr Hpend Hpk)
    as (w' & Hrun & Hwall & Hreads & Hobjs).
  eexists _, _, w'. split; [exact Hrun|].
  assert (Hlt : (a < length (objects w))%nat) by (eapply lookup_lt_Some; eauto).
  assert (Hfound : find_index (fun x => N.eqb (user_id x) (user_id u)) (objects w') = Some a).
  { rewrite Hobjs. destruct (rehash_due env p u).
    - change (user_id u) with (user_id (rehashed env p u)).
      apply find_index_by_id.
      + rewrite list_fmap_insert. rewrite list_insert_id; [done|].
        rewrite list_lookup_fmap.
        transitivity (user_id <$> Some u); [f_equal; exact Hobj|done].
      + by apply list_lookup_insert_eq.
    - by apply find_index_by_id. }
  rewrite (get_user_resolved env (request_with (Some (access_token_of env w (user_id u))) w')
             payload (uuid_str env (user_id u)) (user_id u) a);
    [done|by intros []| |exact Hclaim|exact Hparse|exact Hfound].
  unfold library_verdict, inbound_token. simpl. rewrite lookup_insert_eq.
  by rewrite Hwall, Hreads.
Qed.

End RoundTrip.

Lemma login_token_resolves_to_the_user_witness :
  exists access_token refresh_token w',
    authenticate codec (credentials_of "admin@example.com" "correct horse") world0
    = (Ok (access_token, refresh_token, 0%nat), w')
    /\ fst (__get__ (app_user_descr codec) (request_with (Some access_token) w'))
       = Ok (OUser 0%nat).
Proof.
  apply (login_token_resolves_to_the_user codec
           (credentials_of "admin@example.com" "correct horse")
           "admin@example.com" "correct horse" world0 0%nat admin
           (<["user_id" := VStr "1"]> ∅));
    try reflexivity.
  apply (bool_decide_unpack _). vm_compute. exact I.
Defined.
